(** * Median experiments: a shallow embedding of [median_perf.py] and
      [median_estimate_accuracy.py]

    The two scripts draw random data, compute medians (by sorting, or by
    popping a binary heap) and aggregate trial results in dictionaries.

    Modelling choices.
    - Python exceptions are the [Raise] outcome of an error monad; loops of
      the standard library that are [while] loops are run with a fuel that
      is computed from the input, and [OutOfFuel] is a distinct outcome, so
      every statement of the form "returns [Ok v]" also says the fuel was
      sufficient.
    - [heapq] (heapify, heappop, _siftup, _siftdown) is transcribed from
      CPython's [Lib/heapq.py] on an index-addressed list; [sorted] and
      [list.sort] are a stable sort.  Both only ever use [<] on elements.
    - The random generator, [random.sample] and the clock are opaque
      library calls: they are operations of an abstract [World] that
      threads a state; their documented contracts are stated separately.
      A plot is the list of the calls made to [matplotlib]: [run_test] is
      the loop that fills the tables, [run_test_and_plot] the loop followed
      by [median_line_plot].
    - Lists of numbers are lists of rationals: finite Python numbers
      compare by their exact value.  Where the scripts compute with floats
      the numbers are an instance of the class [PyFloat]: the instance
      [exact] is the rationals with exact arithmetic, the instance
      [binary64_float] is IEEE-754 double precision. *)

From Stdlib Require Import ZArith QArith Qabs Qround Lia Lqa ZifyNat.
From Stdlib Require Import Floats.SpecFloat.
From Stdlib Require Import Ascii String.
From stdpp Require Import base list gmap sorting.
Close Scope Q_scope.
Close Scope string_scope.

Ltac Zify.zify_post_hook ::= Z.to_euclidean_division_equations.

(** ** Outcomes of Python computations *)

Inductive exn : Type :=
  | IndexError
  | ValueError
  | ZeroDivisionError
  | OverflowError
  | Exception (msg : string).

Inductive outcome (T : Type) : Type :=
  | Ok (v : T)
  | Raise (e : exn)
  | OutOfFuel.
Arguments Ok {T} v.
Arguments Raise {T} e.
Arguments OutOfFuel {T}.

#[global] Instance outcome_ret : MRet outcome := @Ok.
#[global] Instance outcome_bind : MBind outcome := fun _ _ f m =>
  match m with
  | Ok v => f v
  | Raise e => Raise e
  | OutOfFuel => OutOfFuel
  end.

(** [l[i]] and [l[i] = x] for a non-negative index: out of range raises. *)
Definition getitem {T} (l : list T) (i : nat) : outcome T :=
  match l !! i with
  | Some x => Ok x
  | None => Raise IndexError
  end.

Definition setitem {T} (l : list T) (i : nat) (x : T) : outcome (list T) :=
  if decide (i < length l) then Ok (<[i:=x]> l) else Raise IndexError.

(** [range(start, stop, step)] for a positive step: the number of values,
    then the values. *)
Fixpoint range_from (count : nat) (start step : Z) : list Z :=
  match count with
  | O => []
  | S count => start :: range_from count (start + step)%Z step
  end.

Definition range3 (start stop step : Z) : list Z :=
  range_from (Z.to_nat ((stop - start + step - 1) / step)) start step.

(** ** The heap queue of the standard library *)

Module heapq.
Section heapq.
Context {A : Type} (lt : A -> A -> bool).

(** The [while pos > startpos] loop of [_siftdown]; [pos] strictly
    decreases, so [pos] itself is enough fuel. *)
Fixpoint _siftdown_loop (fuel : nat) (heap : list A) (startpos pos : nat)
    (newitem : A) : outcome (list A * nat) :=
  if decide (startpos < pos) then
    match fuel with
    | O => OutOfFuel
    | S fuel =>
        let parentpos := (pos - 1) / 2 in
        parent ← getitem heap parentpos;
        if lt newitem parent then
          heap ← setitem heap pos parent;
          _siftdown_loop fuel heap startpos parentpos newitem
        else Ok (heap, pos)
    end
  else Ok (heap, pos).

Definition _siftdown (heap : list A) (startpos pos : nat) : outcome (list A) :=
  newitem ← getitem heap pos;
  '(heap, pos) ← _siftdown_loop pos heap startpos pos newitem;
  setitem heap pos newitem.

(** The [while childpos < endpos] loop of [_siftup]: the smaller child is
    moved up until a leaf is reached; [pos] strictly increases below
    [endpos]. *)
Fixpoint _siftup_loop (fuel : nat) (heap : list A) (endpos pos : nat)
    : outcome (list A * nat) :=
  let childpos := 2 * pos + 1 in
  if decide (childpos < endpos) then
    match fuel with
    | O => OutOfFuel
    | S fuel =>
        let rightpos := childpos + 1 in
        childpos ←
          (if decide (rightpos < endpos) then
             l ← getitem heap childpos;
             r ← getitem heap rightpos;
             Ok (if negb (lt l r) then rightpos else childpos)
           else Ok childpos);
        child ← getitem heap childpos;
        heap ← setitem heap pos child;
        _siftup_loop fuel heap endpos childpos
    end
  else Ok (heap, pos).

Definition _siftup (heap : list A) (pos : nat) : outcome (list A) :=
  let endpos := length heap in
  let startpos := pos in
  newitem ← getitem heap pos;
  '(heap, pos) ← _siftup_loop endpos heap endpos pos;
  heap ← setitem heap pos newitem;
  _siftdown heap startpos pos.

(** [for i in reversed(range(n//2)): _siftup(x, i)] *)
Definition heapify (x : list A) : outcome (list A) :=
  let n := length x in
  foldl (fun acc i => x ← acc; _siftup x i) (Ok x) (reverse (seq 0 (n / 2))).

(** [heap.pop()] followed by the replacement of the root. *)
Definition heappop (heap : list A) : outcome (A * list A) :=
  match last heap with
  | None => Raise IndexError
  | Some lastelt =>
      let heap := removelast heap in
      match heap with
      | [] => Ok (lastelt, heap)
      | _ :: _ =>
          returnitem ← getitem heap 0;
          heap ← setitem heap 0 lastelt;
          heap ← _siftup heap 0;
          Ok (returnitem, heap)
      end
  end.
End heapq.
End heapq.

(** ** [sorted]: a stable sort that only uses [<] *)

Section sorted.
Context {A : Type} (lt : A -> A -> bool).

Fixpoint sorted_insert (x : A) (l : list A) : list A :=
  match l with
  | [] => [x]
  | y :: l' => if lt y x then y :: sorted_insert x l' else x :: l
  end.

Definition sorted (l : list A) : list A := foldr sorted_insert [] l.
End sorted.

(** ** The two median algorithms of [median_perf.py]

    Both take the caller's list and give back the result together with the
    list as the call leaves it. *)

Section medians.
Context {A : Type} (lt : A -> A -> bool).

(** [for n in range(count): hq.heappop(L)] *)
Fixpoint pop_times (count : nat) (L : list A) : outcome (list A) :=
  match count with
  | O => Ok L
  | S count => '(_, L) ← heapq.heappop lt L; pop_times count L
  end.

Definition heap_median (L : list A) : outcome (A * list A) :=
  L ← heapq.heapify lt L;
  L ← pop_times (length L / 2) L;
  heapq.heappop lt L.

Definition sort_median (L : list A) : outcome (A * list A) :=
  let sL := sorted lt L in
  m ← getitem sL (length L / 2);
  Ok (m, L).
End medians.

(** Python numbers that are finite compare by their exact value. *)
Definition Qltb (x y : Q) : bool :=
  match (x ?= y)%Q with Lt => true | _ => false end.

(** A list of Python integers as a list of numbers. *)
Definition nums (l : list Z) : list Q := inject_Z <$> l.

(** The value a call returns, without the state it leaves. *)
Definition returned {T S} (o : outcome (T * S)) : outcome T :=
  '(v, _) ← o; Ok v.

(** ** Vocabulary of the statements *)

Section order_vocabulary.
Context {A : Type} (lt : A -> A -> bool).

(** [x <= y] as the code can observe it: [not (y < x)]. *)
Definition le_of (x y : A) : Prop := lt y x = false.

(** Both [x <= y] and [y <= x]: Python's [==] on finite numbers. *)
Definition same_value (x y : A) : Prop := le_of x y /\ le_of y x.

Definition child_of (p c : nat) : Prop := c = 2 * p + 1 \/ c = 2 * p + 2.

Definition ordered_at (h : list A) (p c : nat) : Prop :=
  forall x y, h !! p = Some x -> h !! c = Some y -> le_of x y.

(** Every node at position [s] or later is at most its children. *)
Definition heap_from (s : nat) (h : list A) : Prop :=
  forall p c, s <= p -> child_of p c -> ordered_at h p c.

Definition is_heap (h : list A) : Prop := heap_from 0 h.

(** [m] stands at index [k] of a sorted arrangement of [L]. *)
Definition rank_in_sorted_order (L : list A) (k : nat) (m : A) : Prop :=
  exists S, S ≡ₚ L /\ StronglySorted le_of S /\ S !! k = Some m.

(** [k] elements of [L] are at most [m], the others are at least [m]. *)
Definition splits_at (L : list A) (k : nat) (m : A) : Prop :=
  exists lo hi, L ≡ₚ lo ++ m :: hi /\ length lo = k /\
    Forall (fun x => le_of x m) lo /\ Forall (fun y => le_of m y) hi.

Fixpoint countb (f : A -> bool) (l : list A) : nat :=
  match l with
  | [] => 0
  | x :: l => (if f x then 1 else 0) + countb f l
  end.

(** The two middle elements of the sorted order of an even-length list. *)
Definition lower_median (L : list A) : option A :=
  sorted lt L !! (length L / 2 - 1).
Definition upper_median (L : list A) : option A :=
  sorted lt L !! (length L / 2).
End order_vocabulary.

(** Positions below [s] in the implicit tree. *)
Inductive desc (s : nat) : nat -> Prop :=
  | desc_refl : desc s s
  | desc_child p c : desc s p -> child_of p c -> desc s c.

(** ** Numbers of the experiments *)

(** What the scripts do with floating-point numbers.  [f_of_int k] is
    [float(k)] (also the literal [10.0] as [f_of_int 10]); [f_truediv] is [/]
    and raises [ZeroDivisionError]; [f_round] is the one-argument [round],
    to the nearest integer with ties to even. *)
Class PyFloat (F : Type) : Type := {
  f_of_int : Z -> F;
  f_ltb : F -> F -> bool;
  f_add : F -> F -> F;
  f_sub : F -> F -> F;
  f_mul : F -> F -> F;
  f_abs : F -> F;
  f_truediv : F -> F -> outcome F;
  f_round : F -> outcome Z
}.

(** [sum(l)]: the additions start from the integer 0. *)
Definition f_sum {F} `{PyFloat F} (l : list F) : F :=
  foldl f_add (f_of_int 0) l.

(** *** Exact arithmetic on the rationals *)

Definition Qround_half_even (x : Q) : Z :=
  let f := Qfloor x in
  match (x - inject_Z f ?= 1 # 2)%Q with
  | Lt => f
  | Gt => (f + 1)%Z
  | Eq => if Z.even f then f else (f + 1)%Z
  end.

Definition Qtruediv (x y : Q) : outcome Q :=
  if Qeq_bool y 0 then Raise ZeroDivisionError else Ok (x / y)%Q.

#[global] Instance exact : PyFloat Q := {|
  f_of_int := inject_Z;
  f_ltb := Qltb;
  f_add := Qplus;
  f_sub := Qminus;
  f_mul := Qmult;
  f_abs := Qabs;
  f_truediv := Qtruediv;
  f_round := fun x => Ok (Qround_half_even x)
|}.

(** *** IEEE-754 double precision *)

Module binary64.
Definition prec : Z := 53.
Definition emax : Z := 1024.

(** [float(k)], correctly rounded; every integer that [round] returns for a
    finite double is below [2^1024], so the conversion never overflows. *)
Definition of_int (k : Z) : spec_float := binary_normalize prec emax k 0 false.

Definition truediv (x y : spec_float) : outcome spec_float :=
  match y with
  | S754_zero _ => Raise ZeroDivisionError
  | _ => Ok (SFdiv prec emax x y)
  end.

(** The integer nearest to [m * 2^e], ties to even. *)
Definition round_mantissa (m : positive) (e : Z) : Z :=
  match e with
  | Zneg p =>
      let d := Z.pow_pos 2 p in
      let q := (Zpos m / d)%Z in
      let r := (Zpos m mod d)%Z in
      match (2 * r ?= d)%Z with
      | Lt => q
      | Gt => (q + 1)%Z
      | Eq => if Z.even q then q else (q + 1)%Z
      end
  | _ => (Zpos m * 2 ^ e)%Z
  end.

Definition round (x : spec_float) : outcome Z :=
  match x with
  | S754_nan => Raise ValueError
  | S754_infinity _ => Raise OverflowError
  | S754_zero _ => Ok 0%Z
  | S754_finite s m e => Ok (cond_Zopp s (round_mantissa m e))
  end.

(** The rational a finite float stands for. *)
Definition value (x : spec_float) : Q :=
  match x with
  | S754_finite s m e =>
      (inject_Z (cond_Zopp s (Zpos m)) * Qpower 2 e)%Q
  | _ => 0%Q
  end.
End binary64.

#[global] Instance binary64_float : PyFloat spec_float := {|
  f_of_int := binary64.of_int;
  f_ltb := SFltb;
  f_add := SFadd binary64.prec binary64.emax;
  f_sub := SFsub binary64.prec binary64.emax;
  f_mul := SFmul binary64.prec binary64.emax;
  f_abs := SFabs;
  f_truediv := binary64.truediv;
  f_round := binary64.round
|}.

(** ** The world outside the scripts *)

(** The generator of [random], its [sample] and the clock of [time] keep a
    state of their own.  [sample_positions n k] are the positions that
    [sample] picks in a population of [n] elements when asked for [k]. *)
Record World (F : Type) : Type := {
  state : Type;
  random : state -> F * state;
  gauss : F -> F -> state -> F * state;
  expovariate : F -> state -> F * state;
  sample_positions : nat -> nat -> state -> list nat * state;
  clock : state -> F * state
}.
Arguments state {F} w.
Arguments random {F} w s.
Arguments gauss {F} w mu sigma s.
Arguments expovariate {F} w lambd s.
Arguments sample_positions {F} w n k s.
Arguments clock {F} w s.

(** Computations that thread a state and may raise. *)
Definition M (S T : Type) : Type := S -> outcome (T * S).

#[global] Instance M_ret {S} : MRet (M S) := fun _ v s => Ok (v, s).
#[global] Instance M_bind {S} : MBind (M S) := fun _ _ k m s =>
  match m s with
  | Ok (v, s') => k v s'
  | Raise e => Raise e
  | OutOfFuel => OutOfFuel
  end.

Definition lift {S T} (o : outcome T) : M S T := fun s =>
  match o with
  | Ok v => Ok (v, s)
  | Raise e => Raise e
  | OutOfFuel => OutOfFuel
  end.

Definition call {S T} (f : S -> T * S) : M S T := fun s => Ok (f s).

(** [[body(i) for i in l]] *)
Fixpoint comprehension {S T U} (body : T -> M S U) (l : list T)
    : M S (list U) :=
  match l with
  | [] => mret []
  | i :: l =>
      x ← body i;
      xs ← comprehension body l;
      mret (x :: xs)
  end.

(** [for i in l: acc = body(acc, i)] *)
Fixpoint for_loop {S T U} (body : U -> T -> M S U) (acc : U) (l : list T)
    : M S U :=
  match l with
  | [] => mret acc
  | i :: l => acc ← body acc i; for_loop body acc l
  end.

Definition range (stop : Z) : list Z := range3 0 stop 1.

(** [rng.sample(population, k)] *)
Definition sample {F} (w : World F) (population : list F) (k : Z)
    : M (state w) (list F) :=
  if decide (0 <= k <= Z.of_nat (length population))%Z then
    positions ← call (sample_positions w (length population) (Z.to_nat k));
    comprehension (fun j => lift (getitem population j)) positions
  else lift (Raise ValueError).

(** ** Plotting

    [matplotlib] is outside the scripts: a figure is the list of the calls
    made to [plt], in their order. *)
Inductive plt_call (F : Type) : Type :=
  | plt_plot (xs : list Z) (ys : list F) (color : string)
  | plt_title (label color : string)
  | plt_xlabel (label : string)
  | plt_ylabel (label : string)
  | plt_show.
Arguments plt_plot {F} xs ys color.
Arguments plt_title {F} label color.
Arguments plt_xlabel {F} label.
Arguments plt_ylabel {F} label.
Arguments plt_show {F}.

(** [==] on the numbers. *)
Class PyEq (F : Type) := f_eqb : F -> F -> bool.

#[global] Instance exact_eq : PyEq Q := Qeq_bool.
#[global] Instance binary64_eq : PyEq spec_float := SFeqb.

(** [a < b] on the tuples [(key, value)]: the first components that are
    not [==] decide, and tuples that are equal throughout are not [<]. *)
Definition item_ltb {F} `{PyFloat F} `{PyEq F} (a b : Z * F) : bool :=
  if negb (a.1 =? b.1)%Z then (a.1 <? b.1)%Z
  else if negb (f_eqb a.2 b.2) then f_ltb a.2 b.2
  else false.

(** [sorted(d.items())].  Python lists the items in the order of their
    insertion and [map_to_list] in an order of its own; the keys of a dict
    are distinct, and then the sorted list is the same for every order of
    the items. *)
Definition sorted_dict_items {F} `{PyFloat F} `{PyEq F} (d : gmap Z F)
    : list (Z * F) :=
  sorted item_ltb (map_to_list d).

(** [list(zip( *rows))] for rows that are pairs: nothing when there is no
    row, else the first and the second components. *)
Definition zip_star {A B} (rows : list (A * B)) : option (list A * list B) :=
  match rows with
  | [] => None
  | _ => Some (rows.*1, rows.*2)
  end.

(** [items[0]] and [items[1]] *)
Definition column0 {A B} (items : option (list A * list B))
    : outcome (list A) :=
  match items with
  | Some (xs, _) => Ok xs
  | None => Raise IndexError
  end.

Definition column1 {A B} (items : option (list A * list B))
    : outcome (list B) :=
  match items with
  | Some (_, ys) => Ok ys
  | None => Raise IndexError
  end.

(** ** [median_perf.py] *)

Module median_perf.
Section script.
Context {F : Type} `{PyFloat F} (w : World F).

Definition experimental_data (length : Z) : M (state w) (list F) :=
  comprehension (fun _ => call (random w)) (range length).

Definition time_median (median_func : list F -> outcome (F * list F))
    (length : Z) : M (state w) F :=
  data ← experimental_data length;
  start_time ← call (clock w);
  _ ← lift (median_func data);
  end_time ← call (clock w);
  let total_time := f_sub end_time start_time in
  mret total_time.

(** The loop of [run_test]; the two tables are what the plot receives. *)
Definition run_test : M (state w) (gmap Z F * gmap Z F) :=
  let lengths := range3 (2 ^ 10) (2 ^ 19) (2 ^ 15) in
  for_loop (fun '(sorted_results, heap_results) length =>
      ts ← comprehension
             (fun _ => time_median (sort_median f_ltb) length) (range 5);
      a ← lift (f_truediv (f_sum ts) (f_of_int 5));
      let sorted_results := <[length := a]> sorted_results in
      th ← comprehension
             (fun _ => time_median (heap_median f_ltb) length) (range 5);
      b ← lift (f_truediv (f_sum th) (f_of_int 5));
      let heap_results := <[length := b]> heap_results in
      mret (sorted_results, heap_results))
    (∅, ∅) lengths.

Context `{PyEq F}.

Definition median_line_plot (sorted_results heap_results : gmap Z F)
    : outcome (list (plt_call F)) :=
  let sorted_items := zip_star (sorted_dict_items sorted_results) in
  let heap_items := zip_star (sorted_dict_items heap_results) in
  xs ← column0 sorted_items;
  ys ← column1 sorted_items;
  let line1 := plt_plot xs ys "cyan" in
  xs ← column0 heap_items;
  ys ← column1 heap_items;
  let line2 := plt_plot xs ys "magenta" in
  Ok [line1; line2;
      plt_title "Sort Median (cyan) vs Heap Median (magenta)" "green";
      plt_xlabel "length of list";
      plt_ylabel "computing time (seconds)";
      plt_show].

(** [run_test] in full: the loop, then the plot of its two tables. *)
Definition run_test_and_plot : M (state w) (list (plt_call F)) :=
  '(sorted_results, heap_results) ← run_test;
  lift (median_line_plot sorted_results heap_results).
End script.
End median_perf.

(** ** [median_estimate_accuracy.py] *)

Definition lower_ascii (c : ascii) : ascii :=
  let n := nat_of_ascii c in
  if (65 <=? n) && (n <=? 90) then ascii_of_nat (n + 32) else c.

(** [str.lower] on the ASCII letters.  A mode with any other character does
    not lower-case to "uniform", "normal" or "exponential" in Python either,
    so the comparisons with these names come out as in Python. *)
Fixpoint lower (s : string) : string :=
  match s with
  | EmptyString => EmptyString
  | String c s => String (lower_ascii c) (lower s)
  end.

Module median_estimate_accuracy.
Section script.
Context {F : Type} `{PyFloat F} (w : World F).

(** [Exception("Please choose a valid mode. " + mode + " is not valid.")] *)
Definition invalid_mode (mode : string) : exn :=
  Exception ("Please choose a valid mode. " ++ mode ++ " is not valid.")%string.

(** [round(val*10.0)/10.0] *)
Definition bin (val : F) : outcome F :=
  k ← f_round (f_mul val (f_of_int 10));
  f_truediv (f_of_int k) (f_of_int 10).

(** [L] starts as [None] and is set by the branch of the mode, if any. *)
Definition experimental_data (mode : string) (length : Z)
    : M (state w) (list F) :=
  L ←
    (if (lower mode =? "uniform")%string then
       L ← comprehension (fun _ => call (random w)) (range length);
       mret (Some L)
     else if (lower mode =? "normal")%string then
       L ← comprehension
             (fun _ => call (gauss w (f_of_int 10) (f_of_int 3)))
             (range length);
       L ← comprehension (fun val => lift (bin val)) L;
       mret (Some L)
     else if (lower mode =? "exponential")%string then
       L ← comprehension
             (fun _ =>
                lambd ← lift (f_truediv (f_of_int 1) (f_of_int 10));
                call (expovariate w lambd))
             (range length);
       L ← comprehension (fun val => lift (bin val)) L;
       mret (Some L)
     else mret None);
  match L with
  | None => lift (Raise (invalid_mode mode))
  | Some L => mret L
  end.

Definition score_median (data_mode : string) (sample_size : Z)
    : M (state w) F :=
  data ← experimental_data data_mode 16384;
  let data := sorted f_ltb data in
  actual_median ← lift (getitem data (length data / 2));
  smp ← sample w data sample_size;
  let sorted_sample := sorted f_ltb smp in
  estimated_median ←
    lift (getitem sorted_sample (length sorted_sample / 2));
  score ← lift (f_truediv (f_abs (f_sub estimated_median actual_median))
                  actual_median);
  mret score.

(** [sum([score_median(mode, sample_size) for i in range(20)]) / 20] *)
Definition average_score (mode : string) (sample_size : Z)
    : M (state w) F :=
  scores ← comprehension (fun _ => score_median mode sample_size) (range 20);
  lift (f_truediv (f_sum scores) (f_of_int 20)).

(** The loop of [run_test]; the three tables are what the plot receives. *)
Definition run_test : M (state w) (gmap Z F * gmap Z F * gmap Z F) :=
  let sample_sizes := range3 4 128 4 in
  for_loop (fun '(uniform_results, normal_results, exponential_results)
                sample_size =>
      u ← average_score "uniform" sample_size;
      let uniform_results := <[sample_size := u]> uniform_results in
      n ← average_score "normal" sample_size;
      let normal_results := <[sample_size := n]> normal_results in
      e ← average_score "exponential" sample_size;
      let exponential_results :=
        <[sample_size := e]> exponential_results in
      mret (uniform_results, normal_results, exponential_results))
    (∅, ∅, ∅) sample_sizes.

Context `{PyEq F}.

Definition median_line_plot
    (uniform_results normal_results exponential_results : gmap Z F)
    : outcome (list (plt_call F)) :=
  let uniform_items := zip_star (sorted_dict_items uniform_results) in
  let normal_items := zip_star (sorted_dict_items normal_results) in
  let exponential_items := zip_star (sorted_dict_items exponential_results) in
  xs ← column0 uniform_items;
  ys ← column1 uniform_items;
  let line1 := plt_plot xs ys "red" in
  xs ← column0 normal_items;
  ys ← column1 normal_items;
  let line2 := plt_plot xs ys "blue" in
  xs ← column0 exponential_items;
  ys ← column1 exponential_items;
  let line3 := plt_plot xs ys "grey" in
  Ok [line1; line2; line3;
      plt_title
        (String.append
           "Uniform (red) vs Normal (blue) vs Exponential (grey) "
           (String "010"%char "Median Estimators"))
        "green";
      plt_xlabel "sample size of median estimate";
      plt_ylabel "score (smaller is better)";
      plt_show].

(** [run_test] in full: the loop, then the plot of its three tables. *)
Definition run_test_and_plot : M (state w) (list (plt_call F)) :=
  '(uniform_results, normal_results, exponential_results) ← run_test;
  lift (median_line_plot uniform_results normal_results
          exponential_results).
End script.
End median_estimate_accuracy.

(** ** Concrete worlds

    A deterministic world whose draws are read off given sequences; its
    state counts the draws made so far, and [sample] picks the first [k]
    positions. *)
Definition stream_world {F} (rnd gss expo clk : Z -> F) : World F := {|
  state := Z;
  random := fun s => (rnd s, (s + 1)%Z);
  gauss := fun _ _ s => (gss s, (s + 1)%Z);
  expovariate := fun _ s => (expo s, (s + 1)%Z);
  sample_positions := fun _ k s => (seq 0 k, s);
  clock := fun s => (clk s, (s + 1)%Z)
|}.

(** Every draw is 1/2 (uniform) or 10 (normal, exponential); the clock
    shows the number of draws. *)
Definition fair_world : World Q :=
  stream_world (fun _ => 1 # 2)%Q (fun _ => 10%Q) (fun _ => 10%Q) inject_Z.

(** Every uniform draw is 0 and every exponential draw is 1/100. *)
Definition zero_world : World Q :=
  stream_world (fun _ => 0%Q) (fun _ => 10%Q) (fun _ => 1 # 100)%Q inject_Z.

(** The first 8192 normal draws are -2, the later ones -1. *)
Definition negative_world : World Q :=
  stream_world (fun _ => 1 # 2)%Q
    (fun i => if (i <? 8192)%Z then (-2)%Q else (-1)%Q)
    (fun _ => 10%Q) inject_Z.

(** Every draw is 1/2 (uniform) or 10 (normal, exponential), but for the
    exponential draw in state 0: it is 1/100, which is binned to 0. *)
Definition rare_zero_world : World Q :=
  stream_world (fun _ => 1 # 2)%Q (fun _ => 10%Q)
    (fun i => if (i =? 0)%Z then (1 # 100)%Q else 10%Q) inject_Z.

(** The double nearest to 0.3, and a world of doubles whose every draw is
    that number. *)
Definition double_0_3 : spec_float :=
  S754_finite false 5404319552844595 (-54).

Definition double_world : World spec_float :=
  stream_world (fun _ => double_0_3) (fun _ => double_0_3)
    (fun _ => double_0_3) binary64.of_int.

(** ** Vocabulary of the statements about the experiments *)

Definition valid_mode (mode : string) : bool :=
  (lower mode =? "uniform")%string || (lower mode =? "normal")%string
  || (lower mode =? "exponential")%string.

(** What the documentation of [random] promises: [random()] is in [0, 1),
    [expovariate] with a positive rate is not negative, and [sample]
    picks [k] distinct positions of the population. *)
Record library_contract (w : World Q) : Prop := {
  random_range : forall s, (0 <= (random w s).1 < 1)%Q;
  expovariate_range :
    forall lambd s, (0 < lambd)%Q -> (0 <= (expovariate w lambd s).1)%Q;
  sample_distinct :
    forall n k s, k <= n ->
      length (sample_positions w n k s).1 = k /\
      NoDup (sample_positions w n k s).1 /\
      Forall (fun j => j < n) (sample_positions w n k s).1
}.

(** The value is the mean of [count] results of [trial]. *)
Definition mean_of_trials {S} (trial : M S Q) (count : Z) (v : Q) : Prop :=
  exists results : list Q,
    Z.of_nat (length results) = count /\
    Forall (fun x => exists s1 s2, trial s1 = Ok (x, s2)) results /\
    Qtruediv (f_sum results) (inject_Z count) = Ok v.

(** [x] is an integer multiple of one tenth, as a real number. *)
Definition exact_multiple_of_tenth (x : Q) : Prop :=
  exists k : Z, (x == inject_Z k * (1 # 10))%Q.

(** A result table with exactly the given keys whose entries all satisfy
    [entry]. *)
Definition table_of (keys : list Z) (entry : Z -> Q -> Prop)
    (t : gmap Z Q) : Prop :=
  dom t = list_to_set keys /\ map_Forall entry t.

(** The clock of [time] never shows less than at the reading before. *)
Definition clock_never_runs_back (w : World Q) : Prop :=
  forall s, ((clock w s).1 <= (clock w (clock w s).2).1)%Q.

(** The line that shows a table: the keys in increasing order, each once,
    with the value of each key at the same position. *)
Definition line_of (t : gmap Z Q) (xs : list Z) (ys : list Q) : Prop :=
  StronglySorted Z.lt xs /\
  (forall k, k ∈ xs <-> is_Some (t !! k)) /\
  Forall2 (fun x y => t !! x = Some y) xs ys.

(** [I] holds of every state in which a call of [score_median] that the
    accuracy experiment can make leaves the generator, when it found it in
    a state of [I]. *)
Definition closed_under_scoring (w : World Q) (I : state w -> Prop) : Prop :=
  forall mode k s v s',
    mode ∈ ["uniform"; "normal"; "exponential"]%string ->
    k ∈ range3 4 128 4 -> I s ->
    median_estimate_accuracy.score_median w mode k s = Ok (v, s') ->
    I s'.

(** No population that [score_median] generates from a state of [I] has the
    median 0. *)
Definition medians_not_zero (w : World Q) (I : state w -> Prop) : Prop :=
  forall mode s pop s1 a,
    mode ∈ ["uniform"; "normal"; "exponential"]%string -> I s ->
    median_estimate_accuracy.experimental_data w mode 16384 s
    = Ok (pop, s1) ->
    sorted Qltb pop !! (length pop / 2) = Some a ->
    ~ (a == 0)%Q.

(** * Proofs *)

(** ** The model against CPython on small inputs *)

Example heapify_layout :
  heapq.heapify Z.ltb [9; 8; 7; 6; 5; 4; 3; 2; 1; 0; 5; 5]%Z
  = Ok [0; 1; 3; 2; 5; 4; 7; 9; 6; 5; 8; 5]%Z.
Proof. vm_compute. reflexivity. Qed.

Example heap_median_seven :
  heap_median Z.ltb [5; 3; 9; 1; 7; 2; 8]%Z = Ok (5, [7; 9; 8])%Z.
Proof. vm_compute. reflexivity. Qed.

Example heap_median_empty : heap_median Z.ltb [] = Raise IndexError.
Proof. reflexivity. Qed.

Example sort_median_empty : sort_median Z.ltb [] = Raise IndexError.
Proof. reflexivity. Qed.

Example range3_sample_sizes :
  range3 4 128 4
  = [4; 8; 12; 16; 20; 24; 28; 32; 36; 40; 44; 48; 52; 56; 60; 64; 68; 72;
     76; 80; 84; 88; 92; 96; 100; 104; 108; 112; 116; 120; 124]%Z.
Proof. vm_compute. reflexivity. Qed.

Example round_ties_to_even :
  Qround_half_even (5 # 2) = 2%Z /\ Qround_half_even (7 # 2) = 4%Z /\
  binary64.round (S754_finite false 5 (-1)) = Ok 2%Z /\
  binary64.round (S754_finite false 7 (-1)) = Ok 4%Z.
Proof. repeat split. Qed.

Example bin_of_0_3 :
  median_estimate_accuracy.bin double_0_3 = Ok double_0_3.
Proof. vm_compute. reflexivity. Qed.

(** ** Generic facts *)

Lemma bind_Ok {T U} (v : T) (f : T -> outcome U) : (Ok v ≫= f) = f v.
Proof. reflexivity. Qed.

Lemma getitem_Ok {T} (l : list T) i x : l !! i = Some x -> getitem l i = Ok x.
Proof. unfold getitem. intros ->. reflexivity. Qed.

Lemma setitem_Ok {T} (l : list T) i x :
  i < length l -> setitem l i x = Ok (<[i:=x]> l).
Proof. unfold setitem. intros H. case_decide; [reflexivity | lia]. Qed.

Lemma lookup_set {T} (l : list T) i j x :
  i < length l ->
  <[i:=x]> l !! j = if decide (j = i) then Some x else l !! j.
Proof.
  intros Hi. case_decide as Hj.
  - subst j. by apply list_lookup_insert_eq.
  - apply list_lookup_insert_ne. congruence.
Qed.

Lemma set_cons_perm {T} (l : list T) j x y :
  l !! j = Some y -> y :: <[j:=x]> l ≡ₚ x :: l.
Proof.
  revert j. induction l as [|z l IH]; intros [|j] Hj; simplify_eq/=.
  - apply perm_swap.
  - rewrite (perm_swap z y), (IH j Hj). apply perm_swap.
Qed.

(** Writing at two positions what the other one held is a permutation. *)
Lemma set_set_perm {T} (l : list T) i j x y :
  i <> j -> l !! i = Some x -> l !! j = Some y ->
  <[i:=y]> (<[j:=x]> l) ≡ₚ l.
Proof.
  revert i j. induction l as [|z l IH]; intros [|i] [|j] Hne Hi Hj;
    simplify_eq/=.
  - by apply set_cons_perm.
  - symmetry. rewrite <-(set_cons_perm l i y x Hi). done.
  - f_equiv. apply IH; [congruence|done..].
Qed.

Lemma desc_ge s p : desc s p -> s <= p.
Proof. induction 1 as [|p c _ IH Hc]; [lia | destruct Hc; lia]. Qed.

Lemma desc_parent s p : desc s p -> s < p -> desc s ((p - 1) / 2).
Proof.
  intros H Hlt. destruct H as [|q c Hq Hc]; [lia|].
  replace ((c - 1) / 2) with q; [done | destruct Hc; lia].
Qed.

Lemma child_parent p c : child_of p c -> (c - 1) / 2 = p /\ p < c.
Proof. intros [-> | ->]; lia. Qed.

Lemma parent_child c : 0 < c -> child_of ((c - 1) / 2) c.
Proof. unfold child_of. lia. Qed.

Ltac look :=
  rewrite ?lookup_set by (rewrite ?length_insert; lia);
  repeat case_decide; try done; try lia; try congruence.

Ltac look_in H :=
  rewrite ?lookup_set in H by (rewrite ?length_insert; lia);
  repeat case_decide; try lia; simplify_eq.

Section heap_correct.
Context {A : Type} (lt : A -> A -> bool).
Hypothesis lt_asym : forall x y, lt x y = true -> lt y x = false.
Hypothesis lt_negtrans :
  forall x y z, lt x z = true -> lt x y = true \/ lt y z = true.

Local Abbreviation le := (le_of lt).

Lemma le_refl x : le x x.
Proof.
  unfold le_of. destruct (lt x x) eqn:E; [|done].
  by rewrite (lt_asym _ _ E) in E.
Qed.

Lemma le_trans x y z : le x y -> le y z -> le x z.
Proof.
  unfold le_of. intros Hxy Hyz. destruct (lt z x) eqn:E; [|done].
  destruct (lt_negtrans z y x E); congruence.
Qed.

Lemma lt_le x y : lt x y = true -> le x y.
Proof. apply lt_asym. Qed.

Lemma le_total x y : le x y \/ le y x.
Proof.
  unfold le_of. destruct (lt y x) eqn:E; [|by left].
  right. by apply lt_asym.
Qed.

(** *** [_siftdown] *)

Lemma _siftdown_loop_spec (newitem : A) (s : nat) : forall fuel h pos,
  pos < length h -> pos <= fuel -> desc s pos ->
  (forall p c, s <= p -> child_of p c -> c <> pos ->
     ordered_at lt (<[pos:=newitem]> h) p c) ->
  (s < pos -> forall c, child_of pos c ->
     ordered_at lt (<[pos:=newitem]> h) ((pos - 1) / 2) c) ->
  exists h' pos',
    heapq._siftdown_loop lt fuel h s pos newitem = Ok (h', pos') /\
    pos' < length h' /\
    <[pos':=newitem]> h' ≡ₚ <[pos:=newitem]> h /\
    heap_from lt s (<[pos':=newitem]> h').
Proof.
  assert (Hexit : forall h pos, desc s pos -> ~ s < pos ->
    (forall p c, s <= p -> child_of p c -> c <> pos ->
       ordered_at lt (<[pos:=newitem]> h) p c) ->
    heap_from lt s (<[pos:=newitem]> h)).
  { intros h pos Hd Hs J2 p c Hp Hc. apply J2; [done..|].
    apply child_parent in Hc. apply desc_ge in Hd. lia. }
  induction fuel as [|fuel IH]; intros h pos Hlen Hfuel Hdesc J2 J3;
    cbn [heapq._siftdown_loop].
  { case_decide; [lia|]. exists h, pos. eauto. }
  case_decide as Hs; [|exists h, pos; eauto].
  specialize (J3 Hs).
  assert (desc s ((pos - 1) / 2)) as Hdp by by apply desc_parent.
  assert (child_of ((pos - 1) / 2) pos) as Hpc by (apply parent_child; lia).
  remember ((pos - 1) / 2) as pp eqn:Epp.
  assert (pp < pos) as Hpp by lia.
  clear Epp.
  destruct (lookup_lt_is_Some_2 h pp) as [parent Hparent]; [lia|].
  rewrite (getitem_Ok _ _ _ Hparent), bind_Ok.
  destruct (lt newitem parent) eqn:Hcmp.
  - rewrite setitem_Ok, bind_Ok by done.
    destruct (IH (<[pos:=parent]> h) pp)
      as (h' & pos' & Hrun & Hlen' & Hperm & Hheap).
    + rewrite length_insert. lia.
    + lia.
    + done.
    + intros p c Hp Hc Hne x y Hx Hy. unfold child_of in *.
      destruct (decide (p = pp)) as [->|Hp1];
        [|destruct (decide (p = pos)) as [->|Hp2]];
        (destruct (decide (c = pos)) as [->|Hc1]; [try lia|]);
        look_in Hx; look_in Hy.
      * by apply lt_le.
      * apply le_trans with parent; [by apply lt_le|].
        apply (J2 pp c); [lia..| |]; by look.
      * apply (J3 c); [lia| |]; by look.
      * apply (J2 p c); [lia..| |]; by look.
    + intros Hs' c Hc x y Hx Hy. unfold child_of in *.
      assert (s <= (pp - 1) / 2) as Hgp by (by apply desc_ge, desc_parent).
      look_in Hx.
      assert (le x parent) as Hxp.
      { apply (J2 ((pp - 1) / 2) pp); [lia..| |]; by look. }
      destruct (decide (c = pos)) as [->|Hc1]; look_in Hy; [done|].
      apply le_trans with parent; [done|].
      apply (J2 pp c); [lia..| |]; by look.
    + exists h', pos'. split_and!; [done..| |done].
      rewrite Hperm.
      rewrite <-(list_insert_insert_eq h pos parent newitem).
      apply set_set_perm; [lia| |]; look.
  - exists h, pos. split_and!; [done..|].
    intros p c Hp Hc x y Hx Hy.
    destruct (decide (c = pos)) as [->|Hc1]; [|by apply (J2 p c)].
    unfold child_of in *. assert (p = pp) as -> by lia.
    look_in Hx. look_in Hy. done.
Qed.

Lemma _siftdown_spec h s pos newitem :
  h !! pos = Some newitem -> desc s pos ->
  (forall p c, s <= p -> child_of p c -> c <> pos -> ordered_at lt h p c) ->
  (s < pos -> forall c, child_of pos c ->
     ordered_at lt h ((pos - 1) / 2) c) ->
  exists h', heapq._siftdown lt h s pos = Ok h' /\ h' ≡ₚ h /\
    heap_from lt s h'.
Proof.
  intros Hnew Hdesc J2 J3. unfold heapq._siftdown.
  rewrite (getitem_Ok _ _ _ Hnew), bind_Ok.
  assert (pos < length h) as Hlen by (by eapply lookup_lt_Some).
  destruct (_siftdown_loop_spec newitem s pos h pos)
    as (h' & pos' & -> & Hlen' & Hperm & Hheap);
    rewrite ?(list_insert_id h pos newitem) in * by done; try done.
  rewrite bind_Ok. cbn beta iota. rewrite setitem_Ok by done. eauto.
Qed.

(** *** [_siftup] *)

Lemma _siftup_loop_spec (newitem : A) (s endpos : nat) : forall fuel h pos,
  endpos = length h -> pos < endpos -> endpos - pos <= fuel -> desc s pos ->
  (forall p c, s <= p -> child_of p c -> p <> pos -> c <> pos ->
     ordered_at lt (<[pos:=newitem]> h) p c) ->
  (s < pos -> forall c, child_of pos c ->
     ordered_at lt (<[pos:=newitem]> h) ((pos - 1) / 2) c) ->
  exists h' leaf,
    heapq._siftup_loop lt fuel h endpos pos = Ok (h', leaf) /\
    leaf < length h' /\ desc s leaf /\
    <[leaf:=newitem]> h' ≡ₚ <[pos:=newitem]> h /\
    (forall p c, s <= p -> child_of p c -> c <> leaf ->
       ordered_at lt (<[leaf:=newitem]> h') p c) /\
    (forall c, child_of leaf c -> length h' <= c).
Proof.
  induction fuel as [|fuel IH]; intros h pos Hend Hlen Hfuel Hdesc I2 I3;
    cbn [heapq._siftup_loop]; (case_decide as Hchild; [try lia|]).
  1,3: exists h, pos; split_and!; [done|lia|done|done| |];
    [intros p c Hp Hc Hne x y Hx Hy; destruct (decide (p = pos)) as [->|Hp1];
       [unfold child_of in *; apply lookup_lt_Some in Hy;
        rewrite length_insert in Hy; lia
       |by apply (I2 p c)]
    |unfold child_of; lia].
  assert (Hstep : forall cp child, child_of pos cp -> h !! cp = Some child ->
    (forall c' y, child_of pos c' -> c' <> cp -> h !! c' = Some y ->
       le child y) ->
    exists h' leaf,
      (child ← getitem h cp; heap ← setitem h pos child;
       heapq._siftup_loop lt fuel heap endpos cp) = Ok (h', leaf) /\
      leaf < length h' /\ desc s leaf /\
      <[leaf:=newitem]> h' ≡ₚ <[pos:=newitem]> h /\
      (forall p c, s <= p -> child_of p c -> c <> leaf ->
         ordered_at lt (<[leaf:=newitem]> h') p c) /\
      (forall c, child_of leaf c -> length h' <= c)).
  { intros cp child Hcp Hchildv Hsmall.
    assert (cp < length h) as Hcplen by (by eapply lookup_lt_Some).
    assert (s <= pos) as Hspos by (by apply desc_ge).
    rewrite (getitem_Ok _ _ _ Hchildv), bind_Ok.
    rewrite setitem_Ok, bind_Ok by lia.
    destruct (IH (<[pos:=child]> h) cp)
      as (h' & leaf & Hrun & Hlen' & Hdesc' & Hperm & J2 & J3).
    - by rewrite length_insert.
    - unfold child_of in *; lia.
    - unfold child_of in *; lia.
    - by apply desc_child with pos.
    - intros p c Hp Hc Hne1 Hne2 x y Hx Hy. unfold child_of in *.
      destruct (decide (p = pos)) as [->|Hp1];
        [|destruct (decide (c = pos)) as [->|Hc1]];
        look_in Hx; look_in Hy.
      + apply (Hsmall c y); [lia|done|done].
      + specialize (I3 ltac:(lia) cp ltac:(lia)).
        replace ((pos - 1) / 2) with p in I3 by lia.
        apply I3; look.
      + apply (I2 p c); [lia..| |]; look.
    - intros Hs c Hc x y Hx Hy. unfold child_of in *.
      replace ((cp - 1) / 2) with pos in Hx by lia.
      look_in Hx. look_in Hy.
      apply (I2 cp c); [lia..| |]; look.
    - exists h', leaf. split_and!; [done..| |done|done].
      rewrite Hperm.
      rewrite <-(list_insert_insert_eq h pos child newitem).
      unfold child_of in *. apply set_set_perm; [lia| |]; look. }
  destruct (lookup_lt_is_Some_2 h (2 * pos + 1)) as [l Hl]; [lia|].
  case_decide as Hright.
  - destruct (lookup_lt_is_Some_2 h (2 * pos + 1 + 1)) as [r Hr]; [lia|].
    rewrite (getitem_Ok _ _ _ Hl), bind_Ok.
    rewrite (getitem_Ok _ _ _ Hr), !bind_Ok.
    destruct (lt l r) eqn:Hcmp; cbn [negb].
    + apply (Hstep _ l); [unfold child_of; lia|done|].
      intros c' y Hc' Hne Hy. unfold child_of in *.
      assert (c' = 2 * pos + 1 + 1) as -> by lia.
      simplify_eq. by apply lt_le.
    + apply (Hstep _ r); [unfold child_of; lia|done|].
      intros c' y Hc' Hne Hy. unfold child_of in *.
      assert (c' = 2 * pos + 1) as -> by lia.
      simplify_eq. done.
  - rewrite bind_Ok. apply (Hstep _ l); [unfold child_of; lia|done|].
    intros c' y Hc' Hne Hy. unfold child_of in *.
    apply lookup_lt_Some in Hy. lia.
Qed.

Lemma _siftup_spec h s :
  s < length h -> heap_from lt (S s) h ->
  exists h', heapq._siftup lt h s = Ok h' /\ h' ≡ₚ h /\ heap_from lt s h'.
Proof.
  intros Hlen Hheap. unfold heapq._siftup.
  destruct (lookup_lt_is_Some_2 h s) as [newitem Hnew]; [done|].
  rewrite (getitem_Ok _ _ _ Hnew), bind_Ok.
  destruct (_siftup_loop_spec newitem s (length h) (length h) h s)
    as (h' & leaf & -> & Hlen' & Hdesc & Hperm & J2 & Hleaf);
    rewrite ?(list_insert_id h s newitem) in * by done;
    [done|done|lia|constructor| |lia|].
  { intros p c Hp Hc Hne _. apply Hheap; [lia|done]. }
  rewrite bind_Ok. cbn beta iota. rewrite setitem_Ok, bind_Ok by done.
  destruct (_siftdown_spec (<[leaf:=newitem]> h') s leaf newitem)
    as (h'' & -> & Hperm' & Hheap'); [by look|done|done| |].
  { intros _ c Hc x y _ Hy. apply lookup_lt_Some in Hy.
    rewrite length_insert in Hy. specialize (Hleaf c Hc). lia. }
  exists h''. split_and!; [done| |done]. by rewrite Hperm'.
Qed.

(** *** [heapify] *)

Lemma heapify_loop_spec : forall k h,
  k <= length h -> heap_from lt k h ->
  exists h',
    foldl (fun acc i => x ← acc; heapq._siftup lt x i) (Ok h)
      (reverse (seq 0 k)) = Ok h' /\
    h' ≡ₚ h /\ is_heap lt h'.
Proof.
  induction k as [|k IH]; intros h Hk Hheap.
  - exists h. done.
  - rewrite seq_S, reverse_snoc. cbn [foldl Nat.add]. rewrite bind_Ok.
    destruct (_siftup_spec h k) as (h1 & -> & Hperm1 & Hheap1); [lia|done|].
    destruct (IH h1) as (h' & -> & Hperm & Hheap');
      [rewrite Hperm1; lia|done|].
    exists h'. split_and!; [done| |done]. by rewrite Hperm.
Qed.

Lemma heapify_spec h :
  exists h', heapq.heapify lt h = Ok h' /\ h' ≡ₚ h /\ is_heap lt h'.
Proof.
  unfold heapq.heapify. apply heapify_loop_spec; [lia|].
  intros p c Hp Hc x y Hx Hy. apply lookup_lt_Some in Hy.
  unfold child_of in *. lia.
Qed.

(** *** [heappop] *)

Lemma root_minimal h m :
  is_heap lt h -> h !! 0 = Some m -> forall i x, h !! i = Some x -> le m x.
Proof.
  intros Hheap Hm i. induction (lt_wf i) as [i _ IH]. intros x Hx.
  destruct (decide (i = 0)) as [->|Hi].
  { simplify_eq. apply le_refl. }
  assert (i < length h) as Hlen by (by eapply lookup_lt_Some).
  destruct (lookup_lt_is_Some_2 h ((i - 1) / 2)) as [y Hy]; [lia|].
  apply le_trans with y; [apply (IH ((i - 1) / 2)); [lia|done]|].
  apply (Hheap ((i - 1) / 2) i); [lia|apply parent_child; lia|done..].
Qed.

Lemma heappop_spec h :
  h <> [] -> is_heap lt h ->
  exists m h', heapq.heappop lt h = Ok (m, h') /\ h ≡ₚ m :: h' /\
    is_heap lt h' /\ Forall (le m) h.
Proof.
  intros Hne Hheap. unfold heapq.heappop.
  destruct (last h) as [lastelt|] eqn:Hlast; [|by apply last_None in Hlast].
  apply last_Some in Hlast as [init ->]. rewrite removelast_last.
  destruct init as [|root tl].
  - exists lastelt, []. split_and!; [done..|].
    repeat constructor. apply le_refl.
  - cbn [getitem lookup list_lookup]. rewrite bind_Ok.
    rewrite setitem_Ok, bind_Ok by (simpl; lia). cbn [insert list_insert].
    destruct (_siftup_spec (lastelt :: tl) 0) as (h' & -> & Hperm & Hheap').
    { simpl; lia. }
    { intros p c Hp Hc x y Hx Hy. unfold child_of in *.
      destruct p as [|p]; [lia|]. destruct c as [|c]; [lia|].
      apply (Hheap (S p) (S c)); [lia|done| |].
      - by apply (lookup_app_l_Some (root :: tl)).
      - by apply (lookup_app_l_Some (root :: tl)). }
    rewrite bind_Ok. exists root, h'. split_and!; [done| |done|].
    + rewrite Hperm. simpl. f_equiv.
      by rewrite <-Permutation_cons_append.
    + apply Forall_lookup. intros i x Hx.
      by apply (root_minimal _ root Hheap eq_refl i).
Qed.
End heap_correct.

Section median_correct.
Context {A : Type} (lt : A -> A -> bool).
Hypothesis lt_asym : forall x y, lt x y = true -> lt y x = false.
Hypothesis lt_negtrans :
  forall x y z, lt x z = true -> lt x y = true \/ lt y z = true.

Local Abbreviation le := (le_of lt).

(** *** [sorted] *)

Lemma sorted_insert_perm x l : sorted_insert lt x l ≡ₚ x :: l.
Proof.
  induction l as [|y l IH]; simpl; [done|].
  destruct (lt y x); [|done]. rewrite IH. apply perm_swap.
Qed.

Lemma sorted_perm l : sorted lt l ≡ₚ l.
Proof.
  induction l as [|x l IH]; simpl; [done|].
  fold (sorted lt l). by rewrite sorted_insert_perm, IH.
Qed.

Lemma sorted_insert_sorted x l :
  StronglySorted le l -> StronglySorted le (sorted_insert lt x l).
Proof.
  induction 1 as [|y l Hl IH Hy]; simpl; [by repeat constructor|].
  destruct (lt y x) eqn:Hcmp.
  - constructor; [done|]. rewrite sorted_insert_perm.
    constructor; [by apply lt_le|done].
  - constructor; [by constructor|].
    constructor; [done|]. eapply Forall_impl; [done|].
    intros z Hz. by apply (le_trans lt lt_negtrans x y z).
Qed.

Lemma sorted_sorted l : StronglySorted le (sorted lt l).
Proof.
  induction l as [|x l IH]; simpl; [constructor|].
  by apply sorted_insert_sorted.
Qed.

Lemma length_sorted l : length (sorted lt l) = length l.
Proof. by rewrite sorted_perm. Qed.

(** *** Ranks *)

Lemma rank_splits L k m : rank_in_sorted_order lt L k m -> splits_at lt L k m.
Proof.
  intros (S & Hperm & Hsorted & Hk).
  exists (take k S), (drop (Datatypes.S k) S).
  rewrite <-(take_drop_middle S k m Hk) in Hsorted.
  apply StronglySorted_app in Hsorted as (Hlo & _ & Hhi).
  apply StronglySorted_cons in Hhi as [Hhi _].
  split_and!; [|apply length_take_le|apply Forall_forall|done].
  - by rewrite take_drop_middle.
  - apply lookup_lt_Some in Hk. lia.
  - intros x Hx. apply (Hlo x m Hx). by left.
Qed.

Lemma splits_rank L k m : splits_at lt L k m -> rank_in_sorted_order lt L k m.
Proof.
  intros (lo & hi & Hperm & Hlen & Hlo & Hhi).
  exists (sorted lt lo ++ m :: sorted lt hi). split_and!.
  - by rewrite !sorted_perm.
  - apply StronglySorted_app_2; [|apply sorted_sorted|].
    + intros x y Hx Hy. rewrite sorted_perm in Hx.
      apply (proj1 (Forall_forall _ _) Hlo) in Hx.
      apply elem_of_cons in Hy as [->|Hy]; [done|].
      rewrite sorted_perm in Hy.
      apply (proj1 (Forall_forall _ _) Hhi) in Hy.
      by apply (le_trans lt lt_negtrans x m y).
    + constructor; [apply sorted_sorted|by rewrite sorted_perm].
  - rewrite <-Hlen, <-(length_sorted lo). apply list_lookup_middle. done.
Qed.

Lemma countb_app f (l1 l2 : list A) :
  countb f (l1 ++ l2) = countb f l1 + countb f l2.
Proof. induction l1 as [|x l1 IH]; simpl; [done|]. rewrite IH. lia. Qed.

Lemma countb_perm f (l1 l2 : list A) :
  l1 ≡ₚ l2 -> countb f l1 = countb f l2.
Proof. induction 1; simpl; lia. Qed.

Lemma countb_all f (l : list A) :
  Forall (fun x => f x = true) l -> countb f l = length l.
Proof.
  induction 1 as [|x l Hx _ IH]; simpl; [done|]. by rewrite Hx, IH.
Qed.

Lemma countb_none f (l : list A) :
  Forall (fun x => f x = false) l -> countb f l = 0.
Proof. induction 1 as [|x l Hx _ IH]; simpl; [done|]. by rewrite Hx. Qed.

Lemma countb_mono f g (l : list A) :
  (forall x, f x = true -> g x = true) -> countb f l <= countb g l.
Proof.
  intros Hfg. induction l as [|x l IH]; simpl; [done|].
  destruct (f x) eqn:Hf; [rewrite (Hfg x Hf)|destruct (g x)]; lia.
Qed.

(** Fewer than [k+1] elements are below [m], more than [k] are not above. *)
Lemma splits_counts L k m :
  splits_at lt L k m ->
  countb (fun x => lt x m) L <= k < countb (fun x => negb (lt m x)) L.
Proof.
  intros (lo & hi & Hperm & Hlen & Hlo & Hhi).
  rewrite !(countb_perm _ _ _ Hperm), !countb_app. cbn [countb].
  rewrite (countb_none (fun x => lt x m) hi) by done.
  rewrite (countb_all (fun x => negb (lt m x)) lo).
  2:{ eapply Forall_impl; [done|]. intros x Hx. unfold le_of in Hx.
      by rewrite Hx. }
  pose proof (le_refl lt lt_asym m) as Hm. unfold le_of in Hm. rewrite Hm.
  assert (countb (fun x => lt x m) lo <= length lo); [|simpl; lia].
  clear. induction lo as [|x lo IH]; simpl; [done|]. destruct (lt x m); lia.
Qed.

Lemma splits_le L k a b : splits_at lt L k a -> splits_at lt L k b -> le a b.
Proof.
  intros Ha%splits_counts Hb%splits_counts.
  unfold le_of. destruct (lt b a) eqn:Hba; [|done].
  assert (countb (fun x => negb (lt b x)) L <= countb (fun x => lt x a) L);
    [|lia].
  apply countb_mono. intros x Hx. apply negb_true_iff in Hx.
  destruct (lt_negtrans b x a Hba); congruence.
Qed.

Lemma splits_same_value L k a b :
  splits_at lt L k a -> splits_at lt L k b -> same_value lt a b.
Proof. intros Ha Hb. split; by eapply splits_le. Qed.

(** *** The two medians *)

Lemma sort_median_spec L :
  L <> [] ->
  exists m, sort_median lt L = Ok (m, L) /\
    sorted lt L !! (length L / 2) = Some m /\
    rank_in_sorted_order lt L (length L / 2) m.
Proof.
  intros HL. unfold sort_median.
  destruct (lookup_lt_is_Some_2 (sorted lt L) (length L / 2)) as [m Hm].
  { rewrite length_sorted.
    assert (0 < length L) by (destruct L; [done|simpl; lia]). lia. }
  exists m. rewrite (getitem_Ok _ _ _ Hm), bind_Ok.
  split_and!; [done..|]. exists (sorted lt L).
  split_and!; [apply sorted_perm|apply sorted_sorted|done].
Qed.

Lemma pop_times_spec : forall k h,
  is_heap lt h -> k <= length h ->
  exists popped h', pop_times lt k h = Ok h' /\ is_heap lt h' /\
    h ≡ₚ popped ++ h' /\ length popped = k /\
    Forall (fun x => Forall (le x) h') popped.
Proof.
  induction k as [|k IH]; intros h Hheap Hk; cbn [pop_times].
  { exists [], h. done. }
  destruct (heappop_spec lt lt_asym lt_negtrans h)
    as (m & h1 & -> & Hperm & Hheap1 & Hmin);
    [intros ->; simpl in Hk; lia|done|].
  rewrite bind_Ok. cbn beta iota.
  destruct (IH h1) as (popped & h' & -> & Hheap' & Hperm' & Hlen & Hle);
    [done|rewrite Hperm in Hk; simpl in Hk; lia|].
  exists (m :: popped), h'. split_and!; [done..| |simpl; lia|].
  - by rewrite Hperm, Hperm'.
  - constructor; [|done]. rewrite Hperm, Hperm' in Hmin.
    apply Forall_cons in Hmin as [_ Hmin].
    by apply Forall_app in Hmin as [_ Hmin].
Qed.

Lemma heap_median_spec L :
  L <> [] ->
  exists m Lh lo, heap_median lt L = Ok (m, Lh) /\ is_heap lt Lh /\
    L ≡ₚ lo ++ m :: Lh /\ length lo = length L / 2 /\
    Forall (fun x => le x m) lo /\ Forall (le m) Lh.
Proof.
  intros HL. unfold heap_median.
  destruct (heapify_spec lt lt_asym lt_negtrans L)
    as (h0 & -> & Hperm0 & Hheap0).
  rewrite bind_Ok.
  assert (length h0 = length L) as Hlen0 by (by rewrite Hperm0).
  assert (0 < length L) by (destruct L; [done|simpl; lia]).
  destruct (pop_times_spec (length h0 / 2) h0)
    as (lo & h1 & -> & Hheap1 & Hperm1 & Hlen1 & Hlo); [done|lia|].
  rewrite bind_Ok.
  assert (length h0 = length lo + length h1) as Hsum
    by (by rewrite Hperm1, length_app).
  destruct (heappop_spec lt lt_asym lt_negtrans h1)
    as (m & Lh & -> & Hperm2 & Hheap2 & Hmin); [|done|].
  { intros ->. simpl in Hsum. lia. }
  exists m, Lh, lo. split_and!; [done..| | | |].
  - by rewrite <-Hperm0, Hperm1, Hperm2.
  - lia.
  - eapply Forall_impl; [exact Hlo|]. intros x Hx. cbn beta in Hx.
    rewrite Hperm2 in Hx. by apply Forall_cons in Hx as [? _].
  - rewrite Hperm2 in Hmin. by apply Forall_cons in Hmin as [_ ?].
Qed.

Lemma heap_median_rank L m Lh :
  heap_median lt L = Ok (m, Lh) ->
  rank_in_sorted_order lt L (length L / 2) m.
Proof.
  intros Hrun. destruct (decide (L = [])) as [->|HL]; [done|].
  destruct (heap_median_spec L HL)
    as (m' & Lh' & lo & Hrun' & _ & Hperm & Hlen & Hlo & Hhi).
  rewrite Hrun in Hrun'. simplify_eq.
  apply splits_rank. by exists lo, Lh'.
Qed.

(** The two algorithms agree, on every non-empty list. *)
Lemma medians_agree L :
  L <> [] ->
  exists ms mh Lh,
    sort_median lt L = Ok (ms, L) /\ heap_median lt L = Ok (mh, Lh) /\
    same_value lt ms mh /\
    rank_in_sorted_order lt L (length L / 2) ms /\
    rank_in_sorted_order lt L (length L / 2) mh.
Proof.
  intros HL.
  destruct (sort_median_spec L HL) as (ms & Hs & _ & Hrs).
  destruct (heap_median_spec L HL) as (mh & Lh & lo & Hh & _).
  pose proof (heap_median_rank L mh Lh Hh) as Hrh.
  exists ms, mh, Lh. split_and!; [done..| |done|done].
  eapply splits_same_value; by apply rank_splits.
Qed.
End median_correct.

(** ** Computations in a world *)

Lemma M_bind_run {S T U} (m : M S T) (k : T -> M S U) s :
  (m ≫= k) s =
  match m s with
  | Ok (v, s') => k v s'
  | Raise e => Raise e
  | OutOfFuel => OutOfFuel
  end.
Proof. reflexivity. Qed.

Lemma M_bind_Ok {S T U} (m : M S T) (k : T -> M S U) s v s' :
  m s = Ok (v, s') -> (m ≫= k) s = k v s'.
Proof. intros Hm. by rewrite M_bind_run, Hm. Qed.

Lemma M_bind_inv {S T U} (m : M S T) (k : T -> M S U) s r :
  (m ≫= k) s = Ok r -> exists v s', m s = Ok (v, s') /\ k v s' = Ok r.
Proof.
  rewrite M_bind_run. destruct (m s) as [[v s']| |]; [eauto|done..].
Qed.

Lemma lift_inv {S T} (o : outcome T) (s : S) r :
  lift o s = Ok r -> exists v, o = Ok v /\ r = (v, s).
Proof. unfold lift. destruct o; intros; simplify_eq; eauto. Qed.

Lemma comprehension_total {S T U} (body : T -> M S U) (P : T -> U -> Prop) l :
  (forall i s, i ∈ l -> exists x s', body i s = Ok (x, s') /\ P i x) ->
  forall s, exists xs s',
    comprehension body l s = Ok (xs, s') /\ Forall2 P l xs.
Proof.
  induction l as [|i l IH]; intros Hbody s; cbn [comprehension].
  { exists [], s. by split. }
  destruct (Hbody i s) as (x & s1 & Hx & HP); [by left|].
  destruct IH with (s := s1) as (xs & s2 & Hxs & HPs).
  { intros j s' Hj. apply Hbody. by right. }
  exists (x :: xs), s2. rewrite (M_bind_Ok _ _ _ _ _ Hx).
  rewrite (M_bind_Ok _ _ _ _ _ Hxs). split; [done|by constructor].
Qed.

Lemma comprehension_inv {S T U} (body : T -> M S U) l : forall s xs s',
  comprehension body l s = Ok (xs, s') ->
  Forall2 (fun i x => exists s1 s2, body i s1 = Ok (x, s2)) l xs.
Proof.
  induction l as [|i l IH]; intros s xs s' Hrun; cbn [comprehension] in Hrun.
  { injection Hrun as <- <-. constructor. }
  apply M_bind_inv in Hrun as (x & s1 & Hx & Hrun).
  apply M_bind_inv in Hrun as (xs' & s2 & Hxs & Hrun).
  injection Hrun as <- <-. constructor; [eauto|]. by eapply IH.
Qed.

Lemma length_range_from count start step :
  length (range_from count start step) = count.
Proof.
  revert start. induction count as [|count IH]; intros start; simpl; [done|].
  by rewrite IH.
Qed.

Lemma length_range stop :
  (0 <= stop)%Z -> Z.of_nat (length (range stop)) = stop.
Proof.
  intros Hstop. unfold range, range3. rewrite length_range_from.
  replace ((stop - 0 + 1 - 1) / 1)%Z with stop by (rewrite Z.div_1_r; lia).
  lia.
Qed.

Lemma elem_of_range_from count start step x :
  (0 <= step)%Z -> x ∈ range_from count start step -> (start <= x)%Z.
Proof.
  intros Hstep. revert start.
  induction count as [|count IH]; intros start Hx; simpl in Hx.
  { by apply elem_of_nil in Hx. }
  apply elem_of_cons in Hx as [->|Hx]; [lia|]. apply IH in Hx. lia.
Qed.

(** ** The order of the rationals *)

Lemma Qltb_spec x y : Qltb x y = true <-> (x < y)%Q.
Proof.
  unfold Qltb. rewrite Qlt_alt. destruct (x ?= y)%Q; split; congruence.
Qed.

Lemma Qltb_asym x y : Qltb x y = true -> Qltb y x = false.
Proof.
  intros H%Qltb_spec. apply not_true_is_false. intros H'%Qltb_spec.
  apply (Qlt_irrefl x). by apply Qlt_trans with y.
Qed.

Lemma Qltb_negtrans x y z :
  Qltb x z = true -> Qltb x y = true \/ Qltb y z = true.
Proof.
  intros H%Qltb_spec. destruct (Qlt_le_dec x y) as [Hxy|Hyx].
  - left. by apply Qltb_spec.
  - right. apply Qltb_spec. by apply Qle_lt_trans with x.
Qed.

Lemma le_of_Qltb x y : le_of Qltb x y <-> (x <= y)%Q.
Proof.
  unfold le_of. rewrite <-not_true_iff_false, Qltb_spec. split.
  - apply Qnot_lt_le.
  - apply Qle_not_lt.
Qed.

Lemma same_value_Qeq x y : same_value Qltb x y <-> (x == y)%Q.
Proof.
  unfold same_value. rewrite !le_of_Qltb. split.
  - intros [? ?]. by apply Qle_antisym.
  - intros ->. split; apply Qle_refl.
Qed.

(** ** The median algorithms on numbers *)

Lemma StronglySorted_lookup_le {T} (R : relation T) l i j x y :
  StronglySorted R l -> i < j -> l !! i = Some x -> l !! j = Some y -> R x y.
Proof.
  intros Hl. revert i j. induction Hl as [|z l Hl IH Hz]; intros i j Hij Hx Hy.
  { done. }
  destruct j as [|j]; [lia|]. destruct i as [|i]; simplify_eq/=.
  - apply (proj1 (Forall_forall _ _) Hz). by eapply list_elem_of_lookup_2.
  - apply (IH i j); [lia|done..].
Qed.

(** The agreement of the two algorithms, on the rationals. *)
Lemma medians_agree_Q (L : list Q) :
  L <> [] ->
  exists ms mh Lh,
    sort_median Qltb L = Ok (ms, L) /\
    heap_median Qltb L = Ok (mh, Lh) /\
    (ms == mh)%Q /\
    sorted Qltb L !! (length L / 2) = Some ms /\
    rank_in_sorted_order Qltb L (length L / 2) ms /\
    rank_in_sorted_order Qltb L (length L / 2) mh.
Proof.
  intros HL.
  destruct (medians_agree Qltb Qltb_asym Qltb_negtrans L HL)
    as (ms & mh & Lh & Hs & Hh & Hsame & Hrs & Hrh).
  destruct (sort_median_spec Qltb Qltb_asym Qltb_negtrans L HL)
    as (ms' & Hs' & Hlook & _).
  rewrite Hs in Hs'. simplify_eq.
  exists ms', mh, Lh. split_and!; [done..| |done|done|done].
  by apply same_value_Qeq.
Qed.

(** C1: for every non-empty list of numbers, [sort_median] and
    [heap_median] return the same value, and that value is the element of
    rank [len(L)//2] (counting from 0) in the sorted order of the list. *)
Theorem sort_median_heap_median_agree (L : list Q) :
  L <> [] ->
  exists ms mh Lh,
    sort_median Qltb L = Ok (ms, L) /\
    heap_median Qltb L = Ok (mh, Lh) /\
    (ms == mh)%Q /\
    sorted Qltb L !! (length L / 2) = Some ms /\
    rank_in_sorted_order Qltb L (length L / 2) ms /\
    rank_in_sorted_order Qltb L (length L / 2) mh.
Proof. apply medians_agree_Q. Qed.

Lemma sort_median_heap_median_agree_witness :
  nums [5; 3; 9; 1]%Z <> [] /\
  exists ms mh Lh,
    sort_median Qltb (nums [5; 3; 9; 1]%Z) = Ok (ms, nums [5; 3; 9; 1]%Z) /\
    heap_median Qltb (nums [5; 3; 9; 1]%Z) = Ok (mh, Lh) /\
    (ms == mh)%Q /\
    sorted Qltb (nums [5; 3; 9; 1]%Z)
      !! (length (nums [5; 3; 9; 1]%Z) / 2) = Some ms /\
    rank_in_sorted_order Qltb (nums [5; 3; 9; 1]%Z)
      (length (nums [5; 3; 9; 1]%Z) / 2) ms /\
    rank_in_sorted_order Qltb (nums [5; 3; 9; 1]%Z)
      (length (nums [5; 3; 9; 1]%Z) / 2) mh.
Proof.
  split; [discriminate|].
  apply sort_median_heap_median_agree. discriminate.
Defined.

(** On [1, 2] both algorithms return 2, while the smaller of the two middle
    elements is 1. *)
Lemma lower_median_counterexample :
  returned (sort_median Qltb (nums [1; 2]%Z)) = Ok 2%Q /\
  returned (heap_median Qltb (nums [1; 2]%Z)) = Ok 2%Q /\
  lower_median Qltb (nums [1; 2]%Z) = Some 1%Q /\
  ~ (2 == 1)%Q.
Proof. split_and!; [vm_compute; reflexivity..|discriminate]. Qed.

(** C2, as the code has it: for every non-empty list of even length both
    algorithms return the upper median, the larger of the two middle
    elements of the sorted order (the one at index [len(L)//2]). *)
Theorem medians_return_upper_median (L : list Q) :
  L <> [] -> Nat.even (length L) = true ->
  exists lo up mh Lh,
    lower_median Qltb L = Some lo /\
    upper_median Qltb L = Some up /\
    (lo <= up)%Q /\
    sort_median Qltb L = Ok (up, L) /\
    heap_median Qltb L = Ok (mh, Lh) /\
    (mh == up)%Q.
Proof.
  intros HL Heven.
  destruct (medians_agree_Q L HL)
    as (up & mh & Lh & Hs & Hh & Heq & Hup & _).
  assert (2 <= length L) as Hlen.
  { destruct L as [|x [|y L]]; [done|done|simpl; lia]. }
  destruct (lookup_lt_is_Some_2 (sorted Qltb L) (length L / 2 - 1))
    as [lo Hlo].
  { rewrite (length_sorted Qltb). lia. }
  exists lo, up, mh, Lh. split_and!; [done..| |done|done|by symmetry].
  apply le_of_Qltb.
  apply (StronglySorted_lookup_le _ (sorted Qltb L)
           (length L / 2 - 1) (length L / 2));
    [apply (sorted_sorted Qltb Qltb_asym Qltb_negtrans)|lia|done..].
Qed.

Lemma medians_return_upper_median_witness :
  nums [4; 1; 3; 2]%Z <> [] /\
  Nat.even (length (nums [4; 1; 3; 2]%Z)) = true /\
  exists lo up mh Lh,
    lower_median Qltb (nums [4; 1; 3; 2]%Z) = Some lo /\
    upper_median Qltb (nums [4; 1; 3; 2]%Z) = Some up /\
    (lo <= up)%Q /\
    sort_median Qltb (nums [4; 1; 3; 2]%Z) = Ok (up, nums [4; 1; 3; 2]%Z) /\
    heap_median Qltb (nums [4; 1; 3; 2]%Z) = Ok (mh, Lh) /\
    (mh == up)%Q.
Proof.
  split; [discriminate|]. split; [reflexivity|].
  apply medians_return_upper_median; [discriminate|reflexivity].
Defined.

(** On [1, ..., 10] the two algorithms return 6, not 5. *)
Lemma one_to_ten_counterexample :
  returned (sort_median Qltb (nums [1; 2; 3; 4; 5; 6; 7; 8; 9; 10]%Z))
    <> Ok 5%Q /\
  returned (heap_median Qltb (nums [1; 2; 3; 4; 5; 6; 7; 8; 9; 10]%Z))
    <> Ok 5%Q.
Proof. split; intros H; vm_compute in H; discriminate H. Qed.

(** C3, as the code has it: on the sorted list [1, ..., 10] both
    [sort_median] and [heap_median] return 6, the element at index
    [len(L)//2 = 5]. *)
Theorem one_to_ten_median :
  returned (sort_median Qltb (nums [1; 2; 3; 4; 5; 6; 7; 8; 9; 10]%Z))
    = Ok 6%Q /\
  returned (heap_median Qltb (nums [1; 2; 3; 4; 5; 6; 7; 8; 9; 10]%Z))
    = Ok 6%Q /\
  sorted Qltb (nums [1; 2; 3; 4; 5; 6; 7; 8; 9; 10]%Z) !! 5 = Some 6%Q.
Proof. split_and!; vm_compute; reflexivity. Qed.

(** C10: [sort_median] leaves the caller's list as it was; after
    [heap_median] the list is a heap that has lost [len(L)//2 + 1] of its
    elements, so it is not the list that was passed. *)
Theorem heap_median_consumes_input (L : list Q) :
  L <> [] ->
  exists ms mh Lh removed,
    sort_median Qltb L = Ok (ms, L) /\
    heap_median Qltb L = Ok (mh, Lh) /\
    is_heap Qltb Lh /\
    L ≡ₚ removed ++ Lh /\
    length removed = length L / 2 + 1 /\
    length Lh = length L - (length L / 2 + 1) /\
    Lh <> L.
Proof.
  intros HL.
  destruct (sort_median_spec Qltb Qltb_asym Qltb_negtrans L HL)
    as (ms & Hs & _).
  destruct (heap_median_spec Qltb Qltb_asym Qltb_negtrans L HL)
    as (mh & Lh & lo & Hh & Hheap & Hperm & Hlen & _).
  assert (length L = length lo + S (length Lh)) as Hsum.
  { by rewrite Hperm, length_app. }
  exists ms, mh, Lh, (lo ++ [mh]).
  split_and!; [done..| | | |].
  - by rewrite <-(assoc app).
  - rewrite length_app. cbn [length]. lia.
  - lia.
  - intros ->. lia.
Qed.

Lemma heap_median_consumes_input_witness :
  nums [5; 3; 9; 1]%Z <> [] /\
  exists ms mh Lh removed,
    sort_median Qltb (nums [5; 3; 9; 1]%Z) = Ok (ms, nums [5; 3; 9; 1]%Z) /\
    heap_median Qltb (nums [5; 3; 9; 1]%Z) = Ok (mh, Lh) /\
    is_heap Qltb Lh /\
    nums [5; 3; 9; 1]%Z ≡ₚ removed ++ Lh /\
    length removed = length (nums [5; 3; 9; 1]%Z) / 2 + 1 /\
    length Lh =
      length (nums [5; 3; 9; 1]%Z) - (length (nums [5; 3; 9; 1]%Z) / 2 + 1) /\
    Lh <> nums [5; 3; 9; 1]%Z.
Proof.
  split; [discriminate|].
  apply heap_median_consumes_input. discriminate.
Defined.

(** ** The data generators *)

Lemma lift_Ok {S T} (o : outcome T) (s : S) v :
  o = Ok v -> lift o s = Ok (v, s).
Proof. by intros ->. Qed.

Lemma call_inv {S T} (f : S -> T * S) s x s' :
  call f s = Ok (x, s') -> x = (f s).1.
Proof. unfold call. intros [= ->]. done. Qed.

Lemma call_total {S T} (f : S -> T * S) s :
  exists x s', call f s = Ok (x, s').
Proof. unfold call. destruct (f s) as [x s']. eauto. Qed.

Lemma Forall2_Forall_both {T U} (Q : T -> Prop) (P : U -> Prop)
    (R : T -> U -> Prop) l k :
  Forall2 R l k -> Forall Q l -> (forall x y, Q x -> R x y -> P y) ->
  Forall P k.
Proof.
  induction 1 as [|x y l k HR _ IH]; intros HQ HP; [constructor|].
  apply Forall_cons in HQ as [Hx HQ]. constructor; eauto.
Qed.

Lemma Forall2_Forall_r {T U} (P : U -> Prop) (R : T -> U -> Prop) l k :
  Forall2 R l k -> (forall x y, R x y -> P y) -> Forall P k.
Proof.
  intros HR HP.
  apply (Forall2_Forall_both (fun _ => True) P R l k HR); [|eauto].
  by apply Forall_forall.
Qed.

Section generators.
Context {F : Type} `{PyFloat F} (w : World F).

Import median_estimate_accuracy.

(** The values of the second pass come from the draws of the first. *)
Lemma binned_draws (P : F -> Prop) (Q : F -> Prop)
    (draw : M (state w) F) n s L s' :
  (L ← comprehension (fun _ : Z => draw) (range n);
   L ← comprehension (fun val => lift (bin val)) L;
   mret (Some L)) s = Ok (L, s') ->
  (forall s x s', draw s = Ok (x, s') -> Q x) ->
  (forall val x, Q val -> bin val = Ok x -> P x) ->
  exists L', L = Some L' /\ Forall P L'.
Proof.
  intros Hrun Hdraw Hbin.
  apply M_bind_inv in Hrun as (L1 & s1 & HL1 & Hrun).
  apply M_bind_inv in Hrun as (L2 & s2 & HL2 & Hret).
  injection Hret as <- <-. exists L2. split; [done|].
  apply comprehension_inv in HL1, HL2.
  eapply Forall2_Forall_both; [exact HL2| |].
  - eapply Forall2_Forall_r; [exact HL1|].
    intros _ x (sa & sb & Hx). by eapply Hdraw.
  - intros val x Hval (sa & sb & Hx).
    apply lift_inv in Hx as (x' & Hx & ?). simplify_eq. by eapply Hbin.
Qed.

(** Every value that [experimental_data] returns was produced by the
    branch of its mode. *)
Lemma experimental_data_elements (P : F -> Prop) mode n s pop s1 :
  experimental_data w mode n s = Ok (pop, s1) ->
  ((lower mode =? "uniform")%string = true ->
     forall s, P (random w s).1) ->
  ((lower mode =? "normal")%string = true ->
     forall mu sigma s x, bin (gauss w mu sigma s).1 = Ok x -> P x) ->
  ((lower mode =? "exponential")%string = true ->
     forall lambd s x,
       f_truediv (f_of_int 1) (f_of_int 10) = Ok lambd ->
       bin (expovariate w lambd s).1 = Ok x -> P x) ->
  Forall P pop.
Proof.
  intros Hrun Hu Hn He. unfold experimental_data in Hrun.
  apply M_bind_inv in Hrun as (L & s2 & HL & Hret).
  destruct (lower mode =? "uniform")%string eqn:E1;
    [|destruct (lower mode =? "normal")%string eqn:E2;
      [|destruct (lower mode =? "exponential")%string eqn:E3]].
  - apply M_bind_inv in HL as (L' & s3 & HL' & HL).
    injection HL as <- <-. injection Hret as <- <-.
    apply comprehension_inv in HL'.
    eapply Forall2_Forall_r; [exact HL'|].
    intros _ x (sa & sb & ->%call_inv). by apply Hu.
  - eapply binned_draws with
      (Q := fun v => exists mu sigma s, v = (gauss w mu sigma s).1)
      in HL as (L' & -> & HL).
    + by injection Hret as <- <-.
    + intros sa x sb ->%call_inv. eauto.
    + intros val x (mu & sigma & sa & ->). by apply Hn.
  - eapply binned_draws with
      (Q := fun v => exists lambd s,
              f_truediv (f_of_int 1) (f_of_int 10) = Ok lambd /\
              v = (expovariate w lambd s).1)
      in HL as (L' & -> & HL).
    + by injection Hret as <- <-.
    + intros sa x sb Hx.
      apply M_bind_inv in Hx as (lambd & sc & Hl & ->%call_inv).
      apply lift_inv in Hl as (? & Hl & ?). simplify_eq. eauto.
    + intros val x (lambd & sa & Hl & ->). by eapply He.
  - injection HL as <- <-. by apply lift_inv in Hret as (? & ? & ?).
Qed.
End generators.

Lemma bin_exact (val : Q) :
  median_estimate_accuracy.bin val
  = Ok (inject_Z (Qround_half_even (val * 10)) / 10)%Q.
Proof. reflexivity. Qed.

Section exact_generators.
Context (w : World Q).

Import median_estimate_accuracy.

Lemma draws_total (draw : M (state w) Q) l :
  (forall s, exists x s', draw s = Ok (x, s')) ->
  forall s, exists xs s',
    comprehension (fun _ : Z => draw) l s = Ok (xs, s') /\
    length xs = length l.
Proof.
  intros Hdraw s.
  destruct (comprehension_total (fun _ : Z => draw) (fun _ _ => True) l)
    with (s := s) as (xs & s' & Hrun & Hall).
  { intros _ sa _. destruct (Hdraw sa) as (x & sb & Hx). eauto. }
  exists xs, s'. split; [done|]. symmetry. by eapply Forall2_length.
Qed.

Lemma bins_total (L : list Q) (s : state w) :
  exists L', comprehension (fun val => lift (bin val)) L s = Ok (L', s) /\
    length L' = length L.
Proof.
  induction L as [|val L (L' & IH & Hlen)]; cbn [comprehension].
  { by exists []. }
  exists ((inject_Z (Qround_half_even (val * 10)) / 10)%Q :: L').
  rewrite (M_bind_Ok _ _ _ _ _ (lift_Ok _ s _ (bin_exact val))).
  rewrite (M_bind_Ok _ _ _ _ _ IH). split; [done|]. simpl. by rewrite Hlen.
Qed.

(** What [experimental_data] does, by the mode. *)
Lemma experimental_data_run mode n s :
  (0 <= n)%Z ->
  if valid_mode mode then
    exists L s', experimental_data w mode n s = Ok (L, s') /\
      Z.of_nat (length L) = n
  else experimental_data w mode n s = Raise (invalid_mode mode).
Proof.
  intros Hn. unfold valid_mode, experimental_data. rewrite M_bind_run.
  destruct (lower mode =? "uniform")%string eqn:E1;
    [|destruct (lower mode =? "normal")%string eqn:E2;
      [|destruct (lower mode =? "exponential")%string eqn:E3]];
    cbn [orb].
  - destruct (draws_total (call (random w)) (range n)
                (call_total _) s) as (L & s' & HL & Hlen).
    rewrite (M_bind_Ok _ _ _ _ _ HL). exists L, s'. split; [done|].
    rewrite Hlen. by apply length_range.
  - destruct (draws_total (call (gauss w (f_of_int 10) (f_of_int 3)))
                (range n) (call_total _) s)
      as (L & s' & HL & Hlen).
    rewrite (M_bind_Ok _ _ _ _ _ HL).
    destruct (bins_total L s') as (L' & HL' & Hlen').
    rewrite (M_bind_Ok _ _ _ _ _ HL'). exists L', s'. split; [done|].
    rewrite Hlen', Hlen. by apply length_range.
  - destruct (draws_total
                (lambd ← lift (f_truediv (f_of_int 1) (f_of_int 10));
                 call (expovariate w lambd))
                (range n) (fun s => call_total (expovariate w _) s) s)
      as (L & s' & HL & Hlen).
    rewrite (M_bind_Ok _ _ _ _ _ HL).
    destruct (bins_total L s') as (L' & HL' & Hlen').
    rewrite (M_bind_Ok _ _ _ _ _ HL'). exists L', s'. split; [done|].
    rewrite Hlen', Hlen. by apply length_range.
  - reflexivity.
Qed.
End exact_generators.

(** C4: [experimental_data] raises exactly when the lower-cased mode is none
    of "uniform", "normal" and "exponential", with a message that quotes the
    mode as it was given; for the three modes it returns a list of [length]
    numbers. *)
Theorem experimental_data_modes (w : World Q) (mode : string) (n : Z)
    (s : state w) :
  (0 <= n)%Z ->
  ((exists e, median_estimate_accuracy.experimental_data w mode n s = Raise e)
     <-> valid_mode mode = false) /\
  (valid_mode mode = false ->
     median_estimate_accuracy.experimental_data w mode n s
     = Raise (Exception ("Please choose a valid mode. " ++ mode
                         ++ " is not valid.")%string)) /\
  (valid_mode mode = true ->
     exists L s',
       median_estimate_accuracy.experimental_data w mode n s = Ok (L, s') /\
       Z.of_nat (length L) = n).
Proof.
  intros Hn. pose proof (experimental_data_run w mode n s Hn) as Hrun.
  destruct (valid_mode mode).
  - destruct Hrun as (L & s' & Hrun & Hlen). rewrite Hrun.
    split; [split; [by intros [e ?]|done]|]. split; [done|eauto].
  - rewrite Hrun. split; [split; eauto|]. split; [done|done].
Qed.

Lemma experimental_data_modes_witness :
  (0 <= 3)%Z /\
  ((exists e,
      median_estimate_accuracy.experimental_data fair_world "Normal" 3 0%Z
      = Raise e) <-> valid_mode "Normal" = false) /\
  (valid_mode "Normal" = false ->
     median_estimate_accuracy.experimental_data fair_world "Normal" 3 0%Z
     = Raise (Exception ("Please choose a valid mode. " ++ "Normal"
                         ++ " is not valid.")%string)) /\
  (valid_mode "Normal" = true ->
     exists L s',
       median_estimate_accuracy.experimental_data fair_world "Normal" 3 0%Z
       = Ok (L, s') /\
       Z.of_nat (length L) = 3%Z).
Proof.
  split; [lia|]. apply (experimental_data_modes fair_world "Normal" 3 0%Z). lia.
Defined.

(** ** Sampling and scoring *)

Lemma stream_world_contract (rnd gss expo clk : Z -> Q) :
  (forall i, (0 <= rnd i < 1)%Q) -> (forall i, (0 <= expo i)%Q) ->
  library_contract (stream_world rnd gss expo clk).
Proof.
  intros Hrnd Hexpo. split; simpl.
  - intros s. apply Hrnd.
  - intros _ s _. apply Hexpo.
  - intros n k s Hk. split_and!.
    + apply length_seq.
    + apply NoDup_seq.
    + apply Forall_forall. intros j Hj%elem_of_seq. lia.
Qed.

Lemma fair_world_contract : library_contract fair_world.
Proof.
  apply stream_world_contract; intros _; [split|]; by vm_compute.
Qed.

(** Distinct positions select a sub-multiset. *)
Lemma lookup_positions_submseteq (l : list Q) ps smp :
  NoDup ps -> Forall2 (fun j x => l !! j = Some x) ps smp -> smp ⊆+ l.
Proof.
  intros Hnodup Hall.
  set (f := fun j => default 0%Q (l !! j)).
  assert (smp = f <$> ps) as ->.
  { induction Hall as [|j x ps smp Hj _ IH]; [done|].
    apply NoDup_cons in Hnodup as [_ Hnodup]. rewrite fmap_cons.
    f_equal; [unfold f; by rewrite Hj|by apply IH]. }
  assert (l = f <$> seq 0 (length l)) as Hl.
  { apply list_eq. intros i. rewrite list_lookup_fmap.
    destruct (decide (i < length l)) as [Hi|Hi].
    - rewrite lookup_seq_lt by done. simpl. unfold f.
      by destruct (lookup_lt_is_Some_2 l i Hi) as [x ->].
    - rewrite lookup_seq_ge, lookup_ge_None_2 by lia. done. }
  assert (forall j, j ∈ ps -> j < length l) as Hrange.
  { intros j Hj. apply list_elem_of_lookup in Hj as [i Hi].
    destruct (Forall2_lookup_l _ _ _ _ _ Hall Hi) as (x & _ & Hx).
    by eapply lookup_lt_Some. }
  clearbody f. rewrite Hl. apply fmap_submseteq, NoDup_submseteq; [done|].
  intros j Hj. apply elem_of_seq. split; [lia|]. by apply Hrange.
Qed.

Section scoring.
Context (w : World Q) (contract : library_contract w).

Import median_estimate_accuracy.

Lemma sample_run (data : list Q) (k : Z) (s : state w) :
  (0 <= k <= Z.of_nat (length data))%Z ->
  exists smp s', sample w data k s = Ok (smp, s') /\
    length smp = Z.to_nat k /\ smp ⊆+ data.
Proof.
  intros Hk. unfold sample. case_decide; [|lia].
  rewrite M_bind_run. unfold call.
  destruct (sample_distinct w contract (length data) (Z.to_nat k) s)
    as (Hlen & Hnodup & Hrange); [lia|].
  destruct (sample_positions w (length data) (Z.to_nat k) s) as [ps s1].
  simpl in Hlen, Hnodup, Hrange.
  assert (forall j (sa : state w), j ∈ ps ->
    exists x sb, lift (getitem data j) sa = Ok (x, sb) /\
      data !! j = Some x) as Hbody.
  { intros j sa Hj. apply (proj1 (Forall_forall _ _) Hrange) in Hj.
    destruct (lookup_lt_is_Some_2 data j Hj) as [x Hx].
    exists x, sa. split; [|done]. by apply lift_Ok, getitem_Ok. }
  destruct (comprehension_total _ _ ps Hbody s1)
    as (smp & s2 & Hrun & Hall).
  exists smp, s2. split_and!; [done| |].
  - by rewrite <-(Forall2_length _ _ _ Hall).
  - by eapply lookup_positions_submseteq.
Qed.

(** The steps of [score_median], one after the other. *)
Lemma score_median_run mode k s :
  valid_mode mode = true -> (1 <= k <= 16384)%Z ->
  exists pop s1 smp s2 a e,
    experimental_data w mode 16384 s = Ok (pop, s1) /\
    Z.of_nat (length pop) = 16384%Z /\
    sorted Qltb pop !! (length pop / 2) = Some a /\
    sample w (sorted Qltb pop) k s1 = Ok (smp, s2) /\
    Z.of_nat (length smp) = k /\
    smp ⊆+ pop /\
    sorted Qltb smp !! (length smp / 2) = Some e /\
    score_median w mode k s =
      if Qeq_bool a 0 then Raise ZeroDivisionError
      else Ok ((Qabs (e - a) / a)%Q, s2).
Proof.
  intros Hmode Hk.
  pose proof (experimental_data_run w mode 16384 s ltac:(lia)) as Hpop.
  rewrite Hmode in Hpop. destruct Hpop as (pop & s1 & Hpop & Hlen).
  pose proof (length_sorted Qltb pop) as Hlens.
  destruct (lookup_lt_is_Some_2 (sorted Qltb pop) (length pop / 2))
    as [a Ha]; [lia|].
  destruct (sample_run (sorted Qltb pop) k s1)
    as (smp & s2 & Hsmp & Hk' & Hsub);
    [lia|].
  pose proof (length_sorted Qltb smp) as Hlens'.
  destruct (lookup_lt_is_Some_2 (sorted Qltb smp) (length smp / 2))
    as [e He]; [lia|].
  exists pop, s1, smp, s2, a, e. split_and!; [done..|lia| |done|].
  { by rewrite Hsub, (sorted_perm Qltb). }
  unfold score_median. change (@f_ltb Q exact) with Qltb.
  rewrite (M_bind_Ok _ _ _ _ _ Hpop). cbn zeta.
  rewrite Hlens.
  rewrite (M_bind_Ok _ _ _ _ _ (lift_Ok _ s1 _ (getitem_Ok _ _ _ Ha))).
  rewrite (M_bind_Ok _ _ _ _ _ Hsmp). rewrite Hlens'.
  rewrite (M_bind_Ok _ _ _ _ _ (lift_Ok _ s2 _ (getitem_Ok _ _ _ He))).
  rewrite M_bind_run. cbn [f_truediv f_abs f_sub exact]. unfold Qtruediv.
  by destruct (Qeq_bool a 0).
Qed.
End scoring.

(** ** Signs and ranges *)

Lemma Qround_half_even_nonneg x : (0 <= x)%Q -> (0 <= Qround_half_even x)%Z.
Proof.
  intros Hx. unfold Qround_half_even.
  pose proof (Qfloor_resp_le 0 x Hx) as Hf. change (Qfloor 0) with 0%Z in Hf.
  destruct (x - inject_Z (Qfloor x) ?= 1 # 2)%Q; [destruct (Z.even _)|..]; lia.
Qed.

Lemma bin_nonneg val x :
  (0 <= val)%Q -> median_estimate_accuracy.bin val = Ok x -> (0 <= x)%Q.
Proof.
  intros Hval. rewrite bin_exact. intros [= <-].
  apply Qle_shift_div_l; [done|]. rewrite Qmult_0_l.
  change 0%Q with (inject_Z 0). rewrite <-Zle_Qle.
  apply Qround_half_even_nonneg.
  apply Qmult_le_0_compat; [done|discriminate].
Qed.

Lemma Qdiv_nonneg x a : (0 <= x)%Q -> (0 < a)%Q -> (0 <= x / a)%Q.
Proof.
  intros Hx Ha. apply Qle_shift_div_l; [done|]. by rewrite Qmult_0_l.
Qed.

Lemma Qdiv_nonpos x a : (0 <= x)%Q -> (a < 0)%Q -> (x / a <= 0)%Q.
Proof.
  intros Hx Ha.
  assert (0 < - a)%Q as Ha'.
  { apply (Qplus_lt_l _ _ a). by ring_simplify. }
  assert (x / a == - (x / - a))%Q as ->.
  { field. intros Hz. rewrite Hz in Ha. by apply Qlt_irrefl in Ha. }
  apply (Qplus_le_l _ _ (x / - a)). ring_simplify.
  by apply Qdiv_nonneg.
Qed.

Section data_ranges.
Context (w : World Q) (contract : library_contract w).

Import median_estimate_accuracy.

(** The uniform and the exponential data have no negative value. *)
Lemma experimental_data_nonneg mode n s pop s1 :
  (lower mode =? "normal")%string = false ->
  experimental_data w mode n s = Ok (pop, s1) ->
  Forall (fun x => 0 <= x)%Q pop.
Proof.
  intros Hmode Hrun.
  apply (experimental_data_elements w _ mode n s pop s1 Hrun).
  - intros _ sa. apply (random_range w contract sa).
  - intros Hn. congruence.
  - intros _ lambd sa x [= <-]. apply bin_nonneg.
    by apply (expovariate_range w contract).
Qed.

Lemma experimental_data_unit_interval n s pop s1 :
  experimental_data w "uniform" n s = Ok (pop, s1) ->
  Forall (fun x => 0 <= x < 1)%Q pop.
Proof.
  intros Hrun.
  apply (experimental_data_elements w _ "uniform" n s pop s1 Hrun).
  - intros _ sa. apply (random_range w contract sa).
  - intros Hn. discriminate Hn.
  - intros Hn. discriminate Hn.
Qed.
End data_ranges.

(** A world in which [random()] is always 0 gives a population of median 0,
    and so does one whose exponential draws are all binned to 0:
    [score_median] raises instead of returning a score. *)
Lemma score_median_counterexample :
  library_contract zero_world /\ valid_mode "uniform" = true /\
  median_estimate_accuracy.score_median zero_world "uniform" 4 0%Z
  = Raise ZeroDivisionError /\
  median_estimate_accuracy.score_median zero_world "exponential" 4 0%Z
  = Raise ZeroDivisionError.
Proof.
  split_and!.
  - apply stream_world_contract; intros _; [split|]; by vm_compute.
  - reflexivity.
  - vm_compute. reflexivity.
  - vm_compute. reflexivity.
Qed.

(** C5, as the code has it: for a valid mode and a sample size between 1
    and the population length, [score_median] generates a population of
    16384 numbers, takes its median [a] (rank [len//2] of the sorted
    population) and the median [e] of a sample drawn without replacement;
    it returns [|e - a| / a] when [a] is not zero, and raises
    [ZeroDivisionError] when it is. *)
Theorem score_median_relative_error (w : World Q) (mode : string) (k : Z)
    (s : state w) :
  library_contract w -> valid_mode mode = true -> (1 <= k <= 16384)%Z ->
  exists pop s1 smp s2 a e,
    median_estimate_accuracy.experimental_data w mode 16384 s = Ok (pop, s1) /\
    Z.of_nat (length pop) = 16384%Z /\
    rank_in_sorted_order Qltb pop (length pop / 2) a /\
    sample w (sorted Qltb pop) k s1 = Ok (smp, s2) /\
    Z.of_nat (length smp) = k /\
    smp ⊆+ pop /\
    rank_in_sorted_order Qltb smp (length smp / 2) e /\
    ((a == 0)%Q ->
       median_estimate_accuracy.score_median w mode k s
       = Raise ZeroDivisionError) /\
    (~ (a == 0)%Q ->
       median_estimate_accuracy.score_median w mode k s
       = Ok ((Qabs (e - a) / a)%Q, s2)).
Proof.
  intros contract Hmode Hk.
  destruct (score_median_run w contract mode k s Hmode Hk)
    as (pop & s1 & smp & s2 & a & e & Hpop & Hlen & Ha & Hsmp & Hlen' & Hsub
        & He & Hscore).
  exists pop, s1, smp, s2, a, e.
  assert (forall l i x, sorted Qltb l !! i = Some x ->
            rank_in_sorted_order Qltb l i x) as Hrank.
  { intros l i x Hx. exists (sorted Qltb l). split_and!; [|  |done].
    - apply sorted_perm.
    - apply (sorted_sorted Qltb Qltb_asym Qltb_negtrans). }
  split_and!; [done|done|by apply Hrank|done|done|done|by apply Hrank| |].
  - intros Hz%Qeq_bool_iff. by rewrite Hz in Hscore.
  - intros Hz. destruct (Qeq_bool a 0) eqn:E; [|done].
    by apply Qeq_bool_iff in E.
Qed.

Lemma score_median_relative_error_witness :
  exists pop s1 smp s2 a e,
    median_estimate_accuracy.experimental_data fair_world "uniform" 16384 0%Z
    = Ok (pop, s1) /\
    Z.of_nat (length pop) = 16384%Z /\
    rank_in_sorted_order Qltb pop (length pop / 2) a /\
    sample fair_world (sorted Qltb pop) 4 s1 = Ok (smp, s2) /\
    Z.of_nat (length smp) = 4%Z /\
    smp ⊆+ pop /\
    rank_in_sorted_order Qltb smp (length smp / 2) e /\
    ((a == 0)%Q ->
       median_estimate_accuracy.score_median fair_world "uniform" 4 0%Z
       = Raise ZeroDivisionError) /\
    (~ (a == 0)%Q ->
       median_estimate_accuracy.score_median fair_world "uniform" 4 0%Z
       = Ok ((Qabs (e - a) / a)%Q, s2)).
Proof.
  apply (score_median_relative_error fair_world "uniform" 4 0%Z);
    [apply fair_world_contract|reflexivity|lia].
Defined.

(** A world whose normal draws have a negative median: the score is -1. *)
Lemma score_sign_counterexample :
  library_contract negative_world /\ valid_mode "normal" = true /\
  exists v s',
    median_estimate_accuracy.score_median negative_world "normal" 1 0%Z
    = Ok (v, s') /\ (v < 0)%Q.
Proof.
  split_and!.
  - apply stream_world_contract; intros _; [split|]; by vm_compute.
  - reflexivity.
  - eexists _, _. split; [vm_compute; reflexivity|reflexivity].
Qed.

(** C6, as the code has it: a returned score has the sign of the population
    median [a]; it is not negative when [a] is positive, which is the case
    for every score returned in the uniform and the exponential mode. *)
Theorem score_sign (w : World Q) (mode : string) (k : Z) (s : state w)
    (v : Q) (s' : state w) :
  library_contract w -> valid_mode mode = true -> (1 <= k <= 16384)%Z ->
  median_estimate_accuracy.score_median w mode k s = Ok (v, s') ->
  exists pop s1 a,
    median_estimate_accuracy.experimental_data w mode 16384 s = Ok (pop, s1) /\
    sorted Qltb pop !! (length pop / 2) = Some a /\
    ((0 < a)%Q -> (0 <= v)%Q) /\
    ((a < 0)%Q -> (v <= 0)%Q) /\
    ((lower mode =? "normal")%string = false -> (0 < a)%Q /\ (0 <= v)%Q).
Proof.
  intros contract Hmode Hk Hrun.
  destruct (score_median_run w contract mode k s Hmode Hk)
    as (pop & s1 & smp & s2 & a & e & Hpop & Hlen & Ha & Hsmp & Hlen' & Hsub
        & He & Hscore).
  rewrite Hrun in Hscore. destruct (Qeq_bool a 0) eqn:Hz; [done|].
  assert (v = (Qabs (e - a) / a)%Q) as -> by congruence.
  clear Hscore. apply Qeq_bool_neq in Hz.
  exists pop, s1, a.
  assert ((0 < a)%Q -> (0 <= Qabs (e - a) / a)%Q) as Hpos.
  { apply Qdiv_nonneg, Qabs_nonneg. }
  split_and!; [done|done|done| |].
  - apply Qdiv_nonpos, Qabs_nonneg.
  - intros Hnormal.
    assert (0 < a)%Q as Hlt; [|by split; [|apply Hpos]].
    pose proof
      (experimental_data_nonneg w contract mode _ s pop s1 Hnormal Hpop)
      as Hall.
    assert (a ∈ pop) as Hin.
    { rewrite <-(sorted_perm Qltb pop). by eapply list_elem_of_lookup_2. }
    apply (proj1 (Forall_forall _ _) Hall) in Hin.
    apply Qle_lteq in Hin as [?|Heq]; [done|]. by symmetry in Heq.
Qed.

Lemma score_sign_witness :
  exists pop s1 a,
    median_estimate_accuracy.experimental_data fair_world "uniform" 16384 0%Z
    = Ok (pop, s1) /\
    sorted Qltb pop !! (length pop / 2) = Some a /\
    ((0 < a)%Q -> (0 <= 0 # 4)%Q) /\
    ((a < 0)%Q -> (0 # 4 <= 0)%Q) /\
    ((lower "uniform" =? "normal")%string = false ->
     (0 < a)%Q /\ (0 <= 0 # 4)%Q).
Proof.
  apply (score_sign fair_world "uniform" 4 0%Z (0 # 4)%Q 16384%Z);
    [apply fair_world_contract|reflexivity|lia|vm_compute; reflexivity].
Defined.

(** C7: the values that [experimental_data] returns in the uniform mode, and
    the values that the [experimental_data] of the performance script
    returns, are at least 0 and less than 1. *)
Theorem uniform_data_in_unit_interval (w : World Q) (n : Z) (s : state w) :
  library_contract w -> (0 <= n)%Z ->
  (exists L s',
     median_estimate_accuracy.experimental_data w "uniform" n s = Ok (L, s') /\
     Z.of_nat (length L) = n /\ Forall (fun x => 0 <= x < 1)%Q L) /\
  (exists L s',
     median_perf.experimental_data w n s = Ok (L, s') /\
     Z.of_nat (length L) = n /\ Forall (fun x => 0 <= x < 1)%Q L).
Proof.
  intros contract Hn. split.
  - pose proof (experimental_data_run w "uniform" n s Hn) as Hrun.
    change (valid_mode "uniform") with true in Hrun.
    destruct Hrun as (L & s' & Hrun & Hlen). exists L, s'.
    split_and!; [done..|]. by eapply experimental_data_unit_interval.
  - unfold median_perf.experimental_data.
    destruct (draws_total w (call (random w)) (range n) (call_total _) s)
      as (L & s' & Hrun & Hlen).
    exists L, s'. split_and!; [done| |].
    + rewrite Hlen. by apply length_range.
    + apply comprehension_inv in Hrun.
      eapply Forall2_Forall_r; [exact Hrun|].
      intros _ x (sa & sb & ->%call_inv). apply (random_range w contract).
Qed.

Lemma uniform_data_in_unit_interval_witness :
  (exists L s',
     median_estimate_accuracy.experimental_data fair_world "uniform" 3 0%Z
     = Ok (L, s') /\
     Z.of_nat (length L) = 3%Z /\ Forall (fun x => 0 <= x < 1)%Q L) /\
  (exists L s',
     median_perf.experimental_data fair_world 3 0%Z = Ok (L, s') /\
     Z.of_nat (length L) = 3%Z /\ Forall (fun x => 0 <= x < 1)%Q L).
Proof.
  apply (uniform_data_in_unit_interval fair_world 3 0%Z);
    [apply fair_world_contract|lia].
Defined.

(** ** Binned values *)

(** The double nearest to 0.3 is what the normal mode returns for a draw of
    0.3, and it is not an integer number of tenths: neither of the real
    1/10, nor of the double nearest to 0.1 (3 times that double rounds to
    another double). *)
Lemma binned_value_counterexample :
  returned
    (median_estimate_accuracy.experimental_data double_world "normal" 1 0%Z)
  = Ok [double_0_3] /\
  ~ exact_multiple_of_tenth (binary64.value double_0_3) /\
  SFmul binary64.prec binary64.emax (binary64.of_int 3)
    (SFdiv binary64.prec binary64.emax (binary64.of_int 1)
       (binary64.of_int 10))
  <> double_0_3.
Proof.
  split_and!.
  - vm_compute. reflexivity.
  - intros [k Hk].
    assert (binary64.value double_0_3
            == 5404319552844595 # 18014398509481984)%Q as E by (by vm_compute).
    rewrite E in Hk. unfold Qeq in Hk. cbn in Hk. lia.
  - vm_compute. discriminate.
Qed.

(** Every binned value is [k / 10.0] for the rounding [k] of [val * 10.0]. *)
Lemma binned_elements {F : Type} `{PyFloat F} (w : World F) (mode : string)
    (n : Z) (s : state w) (L : list F) (s' : state w) :
  (lower mode =? "normal")%string = true
  \/ (lower mode =? "exponential")%string = true ->
  median_estimate_accuracy.experimental_data w mode n s = Ok (L, s') ->
  Forall (fun x => exists (val : F) (k : Z),
            f_round (f_mul val (f_of_int 10)) = Ok k /\
            f_truediv (f_of_int k) (f_of_int 10) = Ok x) L.
Proof.
  intros Hmode Hrun.
  assert (forall val x, median_estimate_accuracy.bin val = Ok x ->
            exists (val : F) (k : Z),
              f_round (f_mul val (f_of_int 10)) = Ok k /\
              f_truediv (f_of_int k) (f_of_int 10) = Ok x) as Hbin.
  { intros val x Hx. unfold median_estimate_accuracy.bin in Hx.
    destruct (f_round (f_mul val (f_of_int 10))) as [k| |] eqn:Hk; [|done..].
    exists val, k. by split. }
  apply (experimental_data_elements w _ mode n s L s' Hrun).
  - intros Hu%String.eqb_eq. rewrite Hu in Hmode.
    by destruct Hmode as [Hm|Hm]; vm_compute in Hm.
  - intros _ mu sigma sa x. apply Hbin.
  - intros _ lambd sa x _. apply Hbin.
Qed.

(** The second pass leaves the generator alone and bins position by
    position. *)
Lemma bins_inv {F : Type} `{PyFloat F} (w : World F) (L1 : list F) :
  forall (s : state w) L2 s',
    comprehension (fun val => lift (median_estimate_accuracy.bin val)) L1 s
    = Ok (L2, s') ->
    s' = s /\
    Forall2 (fun val x => median_estimate_accuracy.bin val = Ok x) L1 L2.
Proof.
  induction L1 as [|val L1 IH]; intros s L2 s' Hrun;
    cbn [comprehension] in Hrun.
  { injection Hrun as <- <-. by split. }
  apply M_bind_inv in Hrun as (x & s1 & Hx & Hrun).
  apply M_bind_inv in Hrun as (xs & s2 & Hxs & Hrun).
  injection Hrun as <- <-.
  apply lift_inv in Hx as (x' & Hx & [= <- ->]).
  apply IH in Hxs as [-> Hxs]. split; [done|by constructor].
Qed.

(** The list that is returned is the list of the draws, binned position by
    position. *)
Lemma binned_positions {F : Type} `{PyFloat F} (w : World F) (mode : string)
    (n : Z) (s : state w) (L : list F) (s' : state w) :
  (lower mode =? "normal")%string = true
  \/ (lower mode =? "exponential")%string = true ->
  median_estimate_accuracy.experimental_data w mode n s = Ok (L, s') ->
  exists draws : list F,
    (if (lower mode =? "normal")%string then
       comprehension
         (fun _ : Z => call (gauss w (f_of_int 10) (f_of_int 3)))
         (range n) s
     else
       comprehension
         (fun _ : Z =>
            lambd ← lift (f_truediv (f_of_int 1) (f_of_int 10));
            call (expovariate w lambd))
         (range n) s)
    = Ok (draws, s') /\
    Forall2
      (fun val x => exists k : Z,
         f_round (f_mul val (f_of_int 10)) = Ok k /\
         f_truediv (f_of_int k) (f_of_int 10) = Ok x)
      draws L.
Proof.
  intros Hmode Hrun.
  assert (forall val x, median_estimate_accuracy.bin val = Ok x ->
            exists k : Z,
              f_round (f_mul val (f_of_int 10)) = Ok k /\
              f_truediv (f_of_int k) (f_of_int 10) = Ok x) as Hbin.
  { intros val x Hx. unfold median_estimate_accuracy.bin in Hx.
    destruct (f_round (f_mul val (f_of_int 10))) as [k| |] eqn:Hk; [|done..].
    exists k. by split. }
  assert ((lower mode =? "uniform")%string = false) as Huniform.
  { destruct Hmode as [->%String.eqb_eq| ->%String.eqb_eq]; reflexivity. }
  assert ((lower mode =? "normal")%string = false ->
          (lower mode =? "exponential")%string = true) as Hexp.
  { intros Hn. destruct Hmode as [Hm|Hm]; [congruence|done]. }
  unfold median_estimate_accuracy.experimental_data in Hrun.
  rewrite Huniform in Hrun.
  apply M_bind_inv in Hrun as (Lo & s2 & HL & Hret).
  destruct (lower mode =? "normal")%string;
    [|rewrite (Hexp eq_refl) in HL];
    apply M_bind_inv in HL as (draws & s1 & Hdraws & HL);
    apply M_bind_inv in HL as (L2 & s3 & HL2 & HL);
    injection HL as <- <-; injection Hret as <- <-;
    apply bins_inv in HL2 as [-> HL2];
    (exists draws; split; [done|]);
    (eapply Forall2_impl; [exact HL2|]); apply Hbin.
Qed.


(** C8, as the code has it: in the normal and in the exponential mode the
    list that is returned holds, at each position, [k / 10.0] for the
    integer [k = round(val * 10.0)], where [val] is the value drawn at that
    position by the first pass, in the arithmetic of the numbers; the
    generator is left in the state after the draws. *)
Theorem binned_values {F : Type} `{PyFloat F} (w : World F) (mode : string)
    (n : Z) (s : state w) (L : list F) (s' : state w) :
  (lower mode =? "normal")%string = true
  \/ (lower mode =? "exponential")%string = true ->
  median_estimate_accuracy.experimental_data w mode n s = Ok (L, s') ->
  exists draws : list F,
    (if (lower mode =? "normal")%string then
       comprehension
         (fun _ : Z => call (gauss w (f_of_int 10) (f_of_int 3)))
         (range n) s
     else
       comprehension
         (fun _ : Z =>
            lambd ← lift (f_truediv (f_of_int 1) (f_of_int 10));
            call (expovariate w lambd))
         (range n) s)
    = Ok (draws, s') /\
    Forall2
      (fun val x => exists k : Z,
         f_round (f_mul val (f_of_int 10)) = Ok k /\
         f_truediv (f_of_int k) (f_of_int 10) = Ok x)
      draws L.
Proof. apply binned_positions. Qed.

Lemma binned_values_witness :
  exists draws : list spec_float,
    comprehension
      (fun _ : Z =>
         call (gauss double_world (binary64.of_int 10) (binary64.of_int 3)))
      (range 2) 0%Z
    = Ok (draws, 2%Z) /\
    Forall2
      (fun val x => exists k : Z,
         binary64.round
           (SFmul binary64.prec binary64.emax val (binary64.of_int 10))
         = Ok k /\
         binary64.truediv (binary64.of_int k) (binary64.of_int 10) = Ok x)
      draws [double_0_3; double_0_3].
Proof.
  destruct (binned_values double_world "normal" 2 0%Z
              [double_0_3; double_0_3] 2%Z)
    as (draws & Hdraws & Hbinned);
    [left; reflexivity|vm_compute; reflexivity|].
  exists draws. split; [exact Hdraws|exact Hbinned].
Defined.

(** With exact arithmetic the binned values are integer numbers of tenths. *)
Lemma binned_values_exact (w : World Q) mode n s L s' :
  (lower mode =? "normal")%string = true
  \/ (lower mode =? "exponential")%string = true ->
  median_estimate_accuracy.experimental_data w mode n s = Ok (L, s') ->
  Forall exact_multiple_of_tenth L.
Proof.
  intros Hmode Hrun.
  eapply Forall_impl; [by eapply (binned_elements w)|].
  intros x (val & k & _ & Hx). cbn in Hx. unfold Qtruediv in Hx.
  change (Qeq_bool (inject_Z 10) 0) with false in Hx. injection Hx as <-.
  exists k. reflexivity.
Qed.

(** ** The result tables *)

Lemma for_loop_inv {S T U} (body : U -> T -> M S U)
    (I : list T -> U -> Prop) :
  (forall seen acc i s acc' s',
     I seen acc -> body acc i s = Ok (acc', s') -> I (seen ++ [i]) acc') ->
  forall l seen acc s acc' s',
    I seen acc -> for_loop body acc l s = Ok (acc', s') -> I (seen ++ l) acc'.
Proof.
  intros Hbody. induction l as [|i l IH]; intros seen acc s acc' s' HI Hrun;
    cbn [for_loop] in Hrun.
  { injection Hrun as <- <-. by rewrite app_nil_r. }
  apply M_bind_inv in Hrun as (acc1 & s1 & Hstep & Hrun).
  rewrite (cons_middle i), (assoc app). eapply IH; [|exact Hrun].
  by eapply Hbody.
Qed.

Lemma for_loop_total {S T U} (body : U -> T -> M S U)
    (I : list T -> U -> Prop) l :
  (forall seen acc i s, I seen acc -> i ∈ l ->
     exists acc' s', body acc i s = Ok (acc', s') /\ I (seen ++ [i]) acc') ->
  forall seen acc s, I seen acc ->
    exists acc' s', for_loop body acc l s = Ok (acc', s') /\
      I (seen ++ l) acc'.
Proof.
  induction l as [|i l IH]; intros Hbody seen acc s HI; cbn [for_loop].
  { exists acc, s. by rewrite app_nil_r. }
  destruct (Hbody seen acc i s HI) as (acc1 & s1 & Hstep & HI1); [by left|].
  destruct (IH) with (seen := seen ++ [i]) (acc := acc1) (s := s1)
    as (acc' & s' & Hrun & HI'); [|done|].
  { intros seen' acc0 j s0 HI0 Hj. apply Hbody; [done|by right]. }
  exists acc', s'. rewrite (M_bind_Ok _ _ _ _ _ Hstep).
  split; [done|]. by rewrite (cons_middle i), (assoc app).
Qed.

Lemma table_of_empty entry : table_of [] entry ∅.
Proof. split; [apply dom_empty_L|apply map_Forall_empty]. Qed.

Lemma table_of_insert keys (entry : Z -> Q -> Prop) t i v :
  table_of keys entry t -> entry i v ->
  table_of (keys ++ [i]) entry (<[i:=v]> t).
Proof.
  intros [Hdom Hall] Hv. split.
  - rewrite dom_insert_L, list_to_set_snoc_L, Hdom. apply (comm_L (∪)).
  - by apply map_Forall_insert_2.
Qed.

(** A table has one entry for each key, and no other. *)
Lemma table_of_entries keys entry t :
  table_of keys entry t ->
  (forall k, k ∈ keys <-> is_Some (t !! k)) /\
  (forall k v, t !! k = Some v -> entry k v).
Proof.
  intros [Hdom Hall]. split.
  - intros k. by rewrite <-elem_of_dom, Hdom, elem_of_list_to_set.
  - intros k v Hk. by apply (map_Forall_lookup_1 _ _ _ _ Hall Hk).
Qed.

Lemma mean_of_comprehension {S} (trial : M S Q) (count : Z) s v s' :
  (0 <= count)%Z ->
  (scores ← comprehension (fun _ : Z => trial) (range count);
   lift (f_truediv (f_sum scores) (f_of_int count))) s = Ok (v, s') ->
  mean_of_trials trial count v.
Proof.
  intros Hcount Hrun.
  apply M_bind_inv in Hrun as (scores & s1 & Hscores & Hdiv).
  apply lift_inv in Hdiv as (v' & Hdiv & ?). simplify_eq.
  apply comprehension_inv in Hscores. exists scores. split_and!; [| |done].
  - rewrite <-(Forall2_length _ _ _ Hscores). by apply length_range.
  - eapply Forall2_Forall_r; [exact Hscores|]. intros i x Hx. exact Hx.
Qed.

Section accuracy_tables.
Context (w : World Q).

Import median_estimate_accuracy.

Lemma average_score_mean mode i s v s' :
  average_score w mode i s = Ok (v, s') ->
  mean_of_trials (score_median w mode i) 20 v.
Proof.
  intros Hrun. unfold average_score in Hrun.
  apply (mean_of_comprehension _ 20 s v s'); [clear; lia|exact Hrun].
Qed.

(** [run_test] is its loop; the sides are written in the order in which
    the definition is unfolded first. *)
Lemma run_test_unfold s :
  for_loop
    (fun '(uniform_results, normal_results, exponential_results)
         sample_size =>
       u ← average_score w "uniform" sample_size;
       let uniform_results := <[sample_size := u]> uniform_results in
       n ← average_score w "normal" sample_size;
       let normal_results := <[sample_size := n]> normal_results in
       e ← average_score w "exponential" sample_size;
       let exponential_results :=
         <[sample_size := e]> exponential_results in
       mret (uniform_results, normal_results, exponential_results))
    (∅, ∅, ∅) (range3 4 128 4) s
  = run_test w s.
Proof.
  exact (@eq_refl _ (for_loop
    (fun '(uniform_results, normal_results, exponential_results)
         sample_size =>
       u ← average_score w "uniform" sample_size;
       let uniform_results := <[sample_size := u]> uniform_results in
       n ← average_score w "normal" sample_size;
       let normal_results := <[sample_size := n]> normal_results in
       e ← average_score w "exponential" sample_size;
       let exponential_results :=
         <[sample_size := e]> exponential_results in
       mret (uniform_results, normal_results, exponential_results))
    (∅, ∅, ∅) (range3 4 128 4) s)).
Qed.

Lemma run_test_tables s u n e s' :
  run_test w s = Ok ((u, n, e), s') ->
  table_of (range3 4 128 4)
    (fun k => mean_of_trials (score_median w "uniform" k) 20) u /\
  table_of (range3 4 128 4)
    (fun k => mean_of_trials (score_median w "normal" k) 20) n /\
  table_of (range3 4 128 4)
    (fun k => mean_of_trials (score_median w "exponential" k) 20) e.
Proof.
  rewrite <-run_test_unfold. intros Hrun.
  pose proof (for_loop_inv
    (fun '(uniform_results, normal_results, exponential_results)
         sample_size =>
       u ← average_score w "uniform" sample_size;
       let uniform_results := <[sample_size := u]> uniform_results in
       n ← average_score w "normal" sample_size;
       let normal_results := <[sample_size := n]> normal_results in
       e ← average_score w "exponential" sample_size;
       let exponential_results :=
         <[sample_size := e]> exponential_results in
       mret (uniform_results, normal_results, exponential_results))
    (fun (seen : list Z) (acc : gmap Z Q * gmap Z Q * gmap Z Q) =>
      table_of seen
        (fun k => mean_of_trials (score_median w "uniform" k) 20)
        acc.1.1 /\
      table_of seen
        (fun k => mean_of_trials (score_median w "normal" k) 20)
        acc.1.2 /\
      table_of seen
        (fun k => mean_of_trials (score_median w "exponential" k) 20)
        acc.2)) as Hinv.
  apply (Hinv) with (seen := []) (l := range3 4 128 4)
    (acc := (∅, ∅, ∅)) (s := s) (acc' := (u, n, e)) (s' := s').
  - clear. intros seen [[u0 n0] e0] i s0 [[u1 n1] e1] s1 (Hu & Hn & He) Hstep.
    apply M_bind_inv in Hstep as (vu & sa & Hvu & Hstep).
    apply M_bind_inv in Hstep as (vn & sb & Hvn & Hstep).
    apply M_bind_inv in Hstep as (ve & sc & Hve & Hstep).
    injection Hstep as <- <- <- <-.
    apply average_score_mean in Hvu, Hvn, Hve.
    split_and!; by apply table_of_insert.
  - split_and!; apply table_of_empty.
  - exact Hrun.
Qed.
End accuracy_tables.

Section perf_tables.
Context (w : World Q).

Import median_perf.

Lemma time_median_total (median_func : list Q -> outcome (Q * list Q))
    (n : Z) (s : state w) :
  (0 < n)%Z ->
  (forall L, L <> [] -> exists m L', median_func L = Ok (m, L')) ->
  exists t s', time_median w median_func n s = Ok (t, s').
Proof.
  intros Hn Hmedian. unfold time_median, experimental_data.
  destruct (draws_total w (call (random w)) (range n) (call_total _) s)
    as (data & s1 & Hdata & Hlen).
  rewrite (M_bind_Ok _ _ _ _ _ Hdata).
  destruct (call_total (clock w) s1) as (t0 & s2 & Hstart).
  rewrite (M_bind_Ok _ _ _ _ _ Hstart).
  destruct (Hmedian data) as (m & L' & Hm).
  { intros ->. pose proof (length_range n ltac:(lia)) as Hr.
    rewrite <-Hlen in Hr. simpl in Hr. lia. }
  rewrite (M_bind_Ok _ _ _ _ _ (lift_Ok _ s2 _ Hm)).
  destruct (call_total (clock w) s2) as (t1 & s3 & Hend).
  rewrite (M_bind_Ok _ _ _ _ _ Hend). eauto.
Qed.

Lemma mean_time_total (median_func : list Q -> outcome (Q * list Q))
    (n : Z) (s : state w) :
  (0 < n)%Z ->
  (forall L, L <> [] -> exists m L', median_func L = Ok (m, L')) ->
  exists ts s' v,
    comprehension (fun _ : Z => time_median w median_func n) (range 5) s
    = Ok (ts, s') /\
    f_truediv (f_sum ts) (f_of_int 5) = Ok v /\
    mean_of_trials (time_median w median_func n) 5 v.
Proof.
  intros Hn Hmedian.
  destruct (draws_total w (time_median w median_func n) (range 5)
              (fun s => time_median_total median_func n s Hn Hmedian) s)
    as (ts & s' & Hts & Hlen).
  exists ts, s', (f_sum ts / 5)%Q. split_and!; [done|done|].
  eapply (mean_of_comprehension _ 5 s); [done|].
  by rewrite (M_bind_Ok _ _ _ _ _ Hts).
Qed.

Lemma run_test_tables_perf s :
  exists sorted_results heap_results s',
    run_test w s = Ok ((sorted_results, heap_results), s') /\
    table_of (range3 (2 ^ 10) (2 ^ 19) (2 ^ 15))
      (fun k => mean_of_trials (time_median w (sort_median Qltb) k) 5)
      sorted_results /\
    table_of (range3 (2 ^ 10) (2 ^ 19) (2 ^ 15))
      (fun k => mean_of_trials (time_median w (heap_median Qltb) k) 5)
      heap_results.
Proof.
  assert (forall L, L <> [] -> exists m L', sort_median Qltb L = Ok (m, L'))
    as Hsort.
  { intros L HL.
    destruct (medians_agree Qltb Qltb_asym Qltb_negtrans L HL)
      as (ms & _ & _ & Hs & _). eauto. }
  assert (forall L, L <> [] -> exists m L', heap_median Qltb L = Ok (m, L'))
    as Hheap.
  { intros L HL.
    destruct (medians_agree Qltb Qltb_asym Qltb_negtrans L HL)
      as (_ & mh & Lh & _ & Hh & _). eauto. }
  unfold run_test. cbn zeta.
  destruct (for_loop_total
    (fun '(sorted_results, heap_results) length =>
       ts ← comprehension
              (fun _ => time_median w (sort_median f_ltb) length) (range 5);
       a ← lift (f_truediv (f_sum ts) (f_of_int 5));
       let sorted_results := <[length := a]> sorted_results in
       th ← comprehension
              (fun _ => time_median w (heap_median f_ltb) length) (range 5);
       b ← lift (f_truediv (f_sum th) (f_of_int 5));
       let heap_results := <[length := b]> heap_results in
       mret (sorted_results, heap_results))
    (fun seen '(sr, hr) =>
       table_of seen
         (fun k => mean_of_trials (time_median w (sort_median Qltb) k) 5)
         sr /\
       table_of seen
         (fun k => mean_of_trials (time_median w (heap_median Qltb) k) 5)
         hr)
    (range3 (2 ^ 10) (2 ^ 19) (2 ^ 15))) with (seen := @nil Z)
    (acc := (∅ : gmap Z Q, ∅ : gmap Z Q)) (s := s)
    as ([sr hr] & s' & Hrun & Hsr & Hhr).
  - intros seen [sr hr] i s0 [Hsr Hhr] Hi.
    assert (0 < i)%Z as Hpos.
    { apply elem_of_range_from in Hi; lia. }
    change (@f_ltb Q exact) with Qltb.
    destruct (mean_time_total (sort_median Qltb) i s0 Hpos Hsort)
      as (ts & s1 & a & Hts & Ha & Hmean_a).
    rewrite (M_bind_Ok _ _ _ _ _ Hts).
    rewrite (M_bind_Ok _ _ _ _ _ (lift_Ok _ s1 _ Ha)). cbn zeta.
    destruct (mean_time_total (heap_median Qltb) i s1 Hpos Hheap)
      as (th & s2 & b & Hth & Hb & Hmean_b).
    rewrite (M_bind_Ok _ _ _ _ _ Hth).
    rewrite (M_bind_Ok _ _ _ _ _ (lift_Ok _ s2 _ Hb)).
    eexists (_, _), _. split; [reflexivity|].
    split; by apply table_of_insert.
  - split; apply table_of_empty.
  - exists sr, hr, s'. done.
Qed.
End perf_tables.

(** ** When the accuracy experiment completes *)

Section accuracy_completes.
Context (w : World Q) (contract : library_contract w).

Import median_estimate_accuracy.

(** Every value of every population is positive. *)
Hypothesis positive_data : forall mode n s pop s1,
  experimental_data w mode n s = Ok (pop, s1) ->
  Forall (fun x => 0 < x)%Q pop.

Lemma score_median_total mode k s :
  valid_mode mode = true -> (1 <= k <= 16384)%Z ->
  exists v s', score_median w mode k s = Ok (v, s').
Proof.
  intros Hmode Hk.
  destruct (score_median_run w contract mode k s Hmode Hk)
    as (pop & s1 & smp & s2 & a & e & Hpop & _ & Ha & _ & _ & _ & _ & ->).
  assert (a ∈ pop) as Hin.
  { rewrite <-(sorted_perm Qltb pop). by eapply list_elem_of_lookup_2. }
  apply (proj1 (Forall_forall _ _) (positive_data _ _ _ _ _ Hpop)) in Hin.
  destruct (Qeq_bool a 0) eqn:Hz; [|eauto].
  apply Qeq_bool_iff in Hz. rewrite Hz in Hin. by apply Qlt_irrefl in Hin.
Qed.

Lemma average_score_total mode k s :
  valid_mode mode = true -> (1 <= k <= 16384)%Z ->
  exists v s', average_score w mode k s = Ok (v, s').
Proof.
  intros Hmode Hk. unfold average_score.
  destruct (draws_total w (score_median w mode k) (range 20)
              (fun s => score_median_total mode k s Hmode Hk) s)
    as (scores & s' & Hscores & _).
  rewrite (M_bind_Ok _ _ _ _ _ Hscores). eauto.
Qed.

Lemma run_test_total s : exists tables s', run_test w s = Ok (tables, s').
Proof.
  rewrite <-run_test_unfold.
  assert (Forall (fun i => 1 <= i <= 16384)%Z (range3 4 128 4)) as Hkeys.
  { apply (bool_decide_unpack _). vm_compute. reflexivity. }
  destruct (for_loop_total (U := gmap Z Q * gmap Z Q * gmap Z Q)
    (fun '(uniform_results, normal_results, exponential_results)
         sample_size =>
       u ← average_score w "uniform" sample_size;
       let uniform_results := <[sample_size := u]> uniform_results in
       n ← average_score w "normal" sample_size;
       let normal_results := <[sample_size := n]> normal_results in
       e ← average_score w "exponential" sample_size;
       let exponential_results :=
         <[sample_size := e]> exponential_results in
       mret (uniform_results, normal_results, exponential_results))
    (fun _ _ => True) (range3 4 128 4)) with (seen := @nil Z)
    (acc := (∅ : gmap Z Q, ∅ : gmap Z Q, ∅ : gmap Z Q)) (s := s)
    as (tables & s' & Hrun & _); [|done|eauto].
  intros seen [[u n] e] i s0 _ Hi.
  apply (proj1 (Forall_forall _ _) Hkeys) in Hi.
  destruct (average_score_total "uniform" i s0 eq_refl Hi)
    as (vu & sa & Hvu).
  destruct (average_score_total "normal" i sa eq_refl Hi)
    as (vn & sb & Hvn).
  destruct (average_score_total "exponential" i sb eq_refl Hi)
    as (ve & sc & Hve).
  rewrite (M_bind_Ok _ _ _ _ _ Hvu). cbn zeta.
  rewrite (M_bind_Ok _ _ _ _ _ Hvn). cbn zeta.
  rewrite (M_bind_Ok _ _ _ _ _ Hve). eexists _, _. split; [reflexivity|done].
Qed.
End accuracy_completes.

Lemma fair_world_positive mode n s pop s1 :
  median_estimate_accuracy.experimental_data fair_world mode n s
  = Ok (pop, s1) ->
  Forall (fun x => 0 < x)%Q pop.
Proof.
  intros Hrun.
  apply (experimental_data_elements fair_world _ mode n s pop s1 Hrun).
  - intros _ sa. reflexivity.
  - intros _ mu sigma sa x [= <-]. reflexivity.
  - intros _ lambd sa x _ [= <-]. reflexivity.
Qed.

(** C9: when the loop of the accuracy experiment completes, each of its
    three tables has exactly the keys of [range(4, 128, 4)], each mapped to
    the mean of 20 scores; the loop of the performance experiment always
    completes, and each of its two tables has exactly the keys of
    [range(2**10, 2**19, 2**15)], each mapped to the mean of 5 timings. *)
Theorem result_tables (w : World Q) (s : state w) (u n e : gmap Z Q)
    (s' : state w) :
  median_estimate_accuracy.run_test w s = Ok ((u, n, e), s') ->
  (dom u = list_to_set (range3 4 128 4) /\
   dom n = list_to_set (range3 4 128 4) /\
   dom e = list_to_set (range3 4 128 4) /\
   size u = 31 /\ size n = 31 /\ size e = 31 /\
   (forall k v, u !! k = Some v ->
      mean_of_trials
        (median_estimate_accuracy.score_median w "uniform" k) 20 v) /\
   (forall k v, n !! k = Some v ->
      mean_of_trials
        (median_estimate_accuracy.score_median w "normal" k) 20 v) /\
   (forall k v, e !! k = Some v ->
      mean_of_trials
        (median_estimate_accuracy.score_median w "exponential" k) 20 v)) /\
  (forall s0, exists sorted_results heap_results s1,
     median_perf.run_test w s0 = Ok ((sorted_results, heap_results), s1) /\
     dom sorted_results = list_to_set (range3 (2 ^ 10) (2 ^ 19) (2 ^ 15)) /\
     dom heap_results = list_to_set (range3 (2 ^ 10) (2 ^ 19) (2 ^ 15)) /\
     size sorted_results = 16 /\ size heap_results = 16 /\
     (forall k v, sorted_results !! k = Some v ->
        mean_of_trials
          (median_perf.time_median w (sort_median Qltb) k) 5 v) /\
     (forall k v, heap_results !! k = Some v ->
        mean_of_trials
          (median_perf.time_median w (heap_median Qltb) k) 5 v)).
Proof.
  intros Hrun.
  assert (forall keys entry t, table_of keys entry t -> NoDup keys ->
            dom t = list_to_set keys /\ size t = length keys /\
            (forall k v, t !! k = Some v -> entry k v)) as Htable.
  { intros keys entry t Ht Hnodup.
    pose proof (table_of_entries keys entry t Ht) as [_ Hentries].
    destruct Ht as [Hdom _]. split_and!; [done| |done].
    by rewrite <-size_dom, Hdom, size_list_to_set. }
  assert (NoDup (range3 4 128 4)) as Hnodup1.
  { apply (bool_decide_unpack _). vm_compute. reflexivity. }
  assert (NoDup (range3 (2 ^ 10) (2 ^ 19) (2 ^ 15))) as Hnodup2.
  { apply (bool_decide_unpack _). vm_compute. reflexivity. }
  split.
  - destruct (run_test_tables w s u n e s' Hrun) as (Hu & Hn & He).
    destruct (Htable _ _ _ Hu Hnodup1) as (Hdu & Hsu & Heu).
    destruct (Htable _ _ _ Hn Hnodup1) as (Hdn & Hsn & Hen).
    destruct (Htable _ _ _ He Hnodup1) as (Hde & Hse & Hee).
    split_and!; assumption.
  - intros s0.
    destruct (run_test_tables_perf w s0) as (sr & hr & s1 & Hperf & Hsr & Hhr).
    destruct (Htable _ _ _ Hsr Hnodup2) as (Hds & Hss & Hes).
    destruct (Htable _ _ _ Hhr Hnodup2) as (Hdh & Hsh & Heh).
    exists sr, hr, s1. split_and!; assumption.
Qed.

Lemma result_tables_witness :
  exists u n e s',
    median_estimate_accuracy.run_test fair_world 0%Z = Ok ((u, n, e), s') /\
    dom u = list_to_set (range3 4 128 4) /\
    dom n = list_to_set (range3 4 128 4) /\
    dom e = list_to_set (range3 4 128 4) /\
    size u = 31 /\ size n = 31 /\ size e = 31.
Proof.
  destruct (run_test_total fair_world fair_world_contract fair_world_positive
              0%Z) as ([[u n] e] & s' & Hrun).
  exists u, n, e, s'. split; [exact Hrun|].
  destruct (result_tables fair_world 0%Z u n e s' Hrun)
    as ((Hu & Hn & He & Hsu & Hsn & Hse & _) & _).
  split_and!; assumption.
Defined.

(** * Further properties *)

(** ** The median algorithms *)

Lemma countb_complement {A} (f : A -> bool) (l : list A) :
  countb f l + countb (fun x => negb (f x)) l = length l.
Proof. induction l as [|x l IH]; simpl; [done|]. destruct (f x); simpl; lia. Qed.

Lemma sort_median_Ok_nonempty {A} (lt : A -> A -> bool) L r :
  sort_median lt L = Ok r -> L <> [].
Proof. by intros Hrun ->. Qed.

Lemma heap_median_Ok_nonempty {A} (lt : A -> A -> bool) L r :
  heap_median lt L = Ok r -> L <> [].
Proof. by intros Hrun ->. Qed.

(** What either algorithm returns splits the list in the middle. *)
Lemma median_splits (L : list Q) m L' :
  sort_median Qltb L = Ok (m, L') \/ heap_median Qltb L = Ok (m, L') ->
  splits_at Qltb L (length L / 2) m.
Proof.
  intros [Hrun|Hrun].
  - pose proof (sort_median_Ok_nonempty _ _ _ Hrun) as HL.
    destruct (sort_median_spec Qltb Qltb_asym Qltb_negtrans L HL)
      as (m' & Hrun' & _ & Hrank).
    rewrite Hrun in Hrun'. simplify_eq.
    by apply (rank_splits Qltb).
  - apply (rank_splits Qltb).
    by eapply (heap_median_rank Qltb Qltb_asym Qltb_negtrans).
Qed.

Lemma splits_at_perm {A} (lt : A -> A -> bool) (L1 L2 : list A) m :
  L1 ≡ₚ L2 -> splits_at lt L1 (length L1 / 2) m ->
  splits_at lt L2 (length L2 / 2) m.
Proof.
  intros Hperm (lo & hi & Hp & Hlen & Hlo & Hhi).
  exists lo, hi. split_and!; [by rewrite <-Hperm| |done|done].
  by rewrite <-(Permutation_length Hperm).
Qed.

(** X1: [sort_median] and [heap_median] raise [IndexError] on the empty
    list, and on no other list. *)
Theorem medians_raise_on_empty (L : list Q) :
  (sort_median Qltb L = Raise IndexError <-> L = []) /\
  (heap_median Qltb L = Raise IndexError <-> L = []).
Proof.
  destruct (decide (L = [])) as [->|HL]; [by split|].
  destruct (medians_agree_Q L HL) as (ms & mh & Lh & -> & -> & _).
  split; split; done.
Qed.

Lemma medians_raise_on_empty_witness :
  (sort_median Qltb (nums [4; 2]%Z) = Raise IndexError <-> nums [4; 2]%Z = [])
  /\ (heap_median Qltb (nums [4; 2]%Z) = Raise IndexError
      <-> nums [4; 2]%Z = []).
Proof. apply medians_raise_on_empty. Defined.

(** X2: the value that either algorithm returns is an element of the list;
    at most [len(L)//2] elements are smaller and at most [(len(L)-1)//2]
    are larger. *)
Theorem median_is_middle_element (L : list Q) (m : Q) (L' : list Q) :
  sort_median Qltb L = Ok (m, L') \/ heap_median Qltb L = Ok (m, L') ->
  m ∈ L /\
  countb (fun x => Qltb x m) L <= length L / 2 /\
  countb (fun x => Qltb m x) L <= (length L - 1) / 2.
Proof.
  intros Hrun. pose proof (median_splits L m L' Hrun) as Hsplit.
  pose proof (splits_counts Qltb Qltb_asym L _ m Hsplit)
    as [Hlt Hle].
  pose proof (countb_complement (fun x => Qltb m x) L) as Hsum.
  split_and!; [|done|lia].
  destruct Hsplit as (lo & hi & Hperm & _). rewrite Hperm.
  apply elem_of_app. right. by left.
Qed.

Lemma median_is_middle_element_witness :
  7%Q ∈ nums [9; 2; 7; 4; 8]%Z /\
  countb (fun x => Qltb x 7) (nums [9; 2; 7; 4; 8]%Z)
    <= length (nums [9; 2; 7; 4; 8]%Z) / 2 /\
  countb (fun x => Qltb 7 x) (nums [9; 2; 7; 4; 8]%Z)
    <= (length (nums [9; 2; 7; 4; 8]%Z) - 1) / 2.
Proof.
  apply (median_is_middle_element _ 7%Q [8; 9]%Q).
  right. vm_compute. reflexivity.
Defined.

(** X3: the medians only depend on the elements, not on their order: on
    two permutations of a non-empty list all four calls return the same
    value. *)
Theorem medians_permutation_invariant (L1 L2 : list Q) :
  L1 ≡ₚ L2 -> L1 <> [] ->
  exists s1 s2 h1 h2 H1 H2,
    sort_median Qltb L1 = Ok (s1, L1) /\ sort_median Qltb L2 = Ok (s2, L2) /\
    heap_median Qltb L1 = Ok (h1, H1) /\ heap_median Qltb L2 = Ok (h2, H2) /\
    (s1 == s2)%Q /\ (h1 == h2)%Q /\ (s1 == h1)%Q.
Proof.
  intros Hperm HL1.
  assert (L2 <> []) as HL2.
  { intros ->. by apply Permutation_nil_r in Hperm. }
  destruct (medians_agree_Q L1 HL1) as (s1 & h1 & H1 & Hs1 & Hh1 & E1 & _).
  destruct (medians_agree_Q L2 HL2) as (s2 & h2 & H2 & Hs2 & Hh2 & E2 & _).
  exists s1, s2, h1, h2, H1, H2.
  assert (s1 == s2)%Q as E.
  { apply same_value_Qeq.
    apply (splits_same_value Qltb Qltb_asym Qltb_negtrans L2 (length L2 / 2)).
    - apply (splits_at_perm Qltb L1 L2 s1 Hperm).
      by apply (median_splits L1 s1 L1), or_introl.
    - by apply (median_splits L2 s2 L2), or_introl. }
  split_and!; [done..| |done]. by rewrite <-E1, <-E2.
Qed.

Lemma medians_permutation_invariant_witness :
  exists s1 s2 h1 h2 H1 H2,
    sort_median Qltb (nums [3; 1; 2]%Z) = Ok (s1, nums [3; 1; 2]%Z) /\
    sort_median Qltb (nums [1; 3; 2]%Z) = Ok (s2, nums [1; 3; 2]%Z) /\
    heap_median Qltb (nums [3; 1; 2]%Z) = Ok (h1, H1) /\
    heap_median Qltb (nums [1; 3; 2]%Z) = Ok (h2, H2) /\
    (s1 == s2)%Q /\ (h1 == h2)%Q /\ (s1 == h1)%Q.
Proof.
  apply medians_permutation_invariant; [apply perm_swap|discriminate].
Defined.

(** X4: [heap_median] removes the smaller part of the list: every removed
    element is at most the returned value, which was removed too, and every
    element that stays in the list is at least the returned value. *)
Theorem heap_median_leaves_upper_part (L : list Q) :
  L <> [] ->
  exists m Lh removed,
    heap_median Qltb L = Ok (m, Lh) /\
    L ≡ₚ removed ++ Lh /\
    m ∈ removed /\
    Forall (fun x => x <= m)%Q removed /\
    Forall (fun y => m <= y)%Q Lh.
Proof.
  intros HL.
  destruct (heap_median_spec Qltb Qltb_asym Qltb_negtrans L HL)
    as (m & Lh & lo & Hrun & _ & Hperm & _ & Hlo & Hhi).
  exists m, Lh, (lo ++ [m]). split_and!; [done| | | |].
  - by rewrite <-(assoc app).
  - apply elem_of_app. right. by left.
  - apply Forall_app. split.
    + eapply Forall_impl; [exact Hlo|]. intros x Hx. by apply le_of_Qltb.
    + constructor; [apply Qle_refl|constructor].
  - eapply Forall_impl; [exact Hhi|]. intros x Hx. by apply le_of_Qltb.
Qed.

Lemma heap_median_leaves_upper_part_witness :
  exists m Lh removed,
    heap_median Qltb (nums [9; 2; 7; 4; 8]%Z) = Ok (m, Lh) /\
    nums [9; 2; 7; 4; 8]%Z ≡ₚ removed ++ Lh /\
    m ∈ removed /\
    Forall (fun x => x <= m)%Q removed /\
    Forall (fun y => m <= y)%Q Lh.
Proof. apply heap_median_leaves_upper_part. discriminate. Defined.

(** X5: [heapify], the first step of [heap_median], succeeds on every list
    and turns it into a heap of the same elements. *)
Theorem heapify_makes_heap (L : list Q) :
  exists h,
    heapq.heapify Qltb L = Ok h /\ h ≡ₚ L /\
    forall p c x y,
      (c = 2 * p + 1 \/ c = 2 * p + 2) ->
      h !! p = Some x -> h !! c = Some y -> (x <= y)%Q.
Proof.
  destruct (heapify_spec Qltb Qltb_asym Qltb_negtrans L)
    as (h & Hrun & Hperm & Hheap).
  exists h. split_and!; [done..|].
  intros p c x y Hc Hx Hy. apply le_of_Qltb.
  apply (Hheap p c); [lia|done..].
Qed.

Lemma heapify_makes_heap_witness :
  exists h,
    heapq.heapify Qltb (nums [9; 2; 7; 4; 8]%Z) = Ok h /\
    h ≡ₚ nums [9; 2; 7; 4; 8]%Z /\
    forall p c x y,
      (c = 2 * p + 1 \/ c = 2 * p + 2) ->
      h !! p = Some x -> h !! c = Some y -> (x <= y)%Q.
Proof. apply heapify_makes_heap. Defined.

(** X6: [heappop], as [heap_median] uses it, raises [IndexError] on the
    empty list; on a non-empty heap it returns a least element and leaves
    a heap of the other elements. *)
Theorem heappop_takes_minimum (h : list Q) :
  is_heap Qltb h ->
  (h = [] -> heapq.heappop Qltb h = Raise IndexError) /\
  (h <> [] ->
   exists m h',
     heapq.heappop Qltb h = Ok (m, h') /\ h ≡ₚ m :: h' /\
     is_heap Qltb h' /\ Forall (fun x => m <= x)%Q h).
Proof.
  intros Hheap. split; [by intros ->|]. intros Hne.
  destruct (heappop_spec Qltb Qltb_asym Qltb_negtrans h Hne Hheap)
    as (m & h' & Hrun & Hperm & Hheap' & Hmin).
  exists m, h'. split_and!; [done..|].
  eapply Forall_impl; [exact Hmin|]. intros x Hx. by apply le_of_Qltb.
Qed.

Lemma heappop_takes_minimum_witness :
  (nums [1; 3; 2]%Z = [] ->
   heapq.heappop Qltb (nums [1; 3; 2]%Z) = Raise IndexError) /\
  (nums [1; 3; 2]%Z <> [] ->
   exists m h',
     heapq.heappop Qltb (nums [1; 3; 2]%Z) = Ok (m, h') /\
     nums [1; 3; 2]%Z ≡ₚ m :: h' /\
     is_heap Qltb h' /\ Forall (fun x => m <= x)%Q (nums [1; 3; 2]%Z)).
Proof.
  apply heappop_takes_minimum.
  intros p c _ Hc x y Hx Hy. unfold child_of in Hc.
  destruct p as [|[|[|p]]]; destruct Hc as [-> | ->]; simpl in Hx, Hy;
    simplify_eq; reflexivity.
Defined.

(** X7: the agreement of the two algorithms needs nothing of the elements
    but a [<] that is a strict weak order: for any such type both return,
    and the two values are equivalent for the order. *)
Theorem medians_agree_any_order {A : Type} (lt : A -> A -> bool) (L : list A) :
  (forall x y, lt x y = true -> lt y x = false) ->
  (forall x y z, lt x z = true -> lt x y = true \/ lt y z = true) ->
  L <> [] ->
  exists ms mh Lh,
    sort_median lt L = Ok (ms, L) /\ heap_median lt L = Ok (mh, Lh) /\
    lt ms mh = false /\ lt mh ms = false.
Proof.
  intros Hasym Hneg HL.
  destruct (medians_agree lt Hasym Hneg L HL)
    as (ms & mh & Lh & Hs & Hh & [Hle1 Hle2] & _).
  exists ms, mh, Lh. split_and!; done.
Qed.

Lemma medians_agree_any_order_witness :
  exists ms mh Lh,
    sort_median Z.ltb [5; 3; 9; 1]%Z = Ok (ms, [5; 3; 9; 1]%Z) /\
    heap_median Z.ltb [5; 3; 9; 1]%Z = Ok (mh, Lh) /\
    Z.ltb ms mh = false /\ Z.ltb mh ms = false.
Proof.
  apply medians_agree_any_order; [intros; lia|intros; lia|discriminate].
Defined.

(** ** The data generators, again *)

Lemma range_nonpos n : (n <= 0)%Z -> range n = [].
Proof.
  intros Hn. unfold range, range3.
  replace (Z.to_nat ((n - 0 + 1 - 1) / 1)) with 0; [done|].
  rewrite Z.div_1_r. lia.
Qed.

Lemma lower_ascii_idemp c : lower_ascii (lower_ascii c) = lower_ascii c.
Proof.
  unfold lower_ascii.
  destruct ((65 <=? nat_of_ascii c) && (nat_of_ascii c <=? 90)) eqn:E; [|by rewrite E].
  apply andb_true_iff in E as [E1%Nat.leb_le E2%Nat.leb_le].
  rewrite nat_ascii_embedding by lia.
  replace ((65 <=? nat_of_ascii c + 32) && (nat_of_ascii c + 32 <=? 90))
    with false; [done|].
  symmetry. apply andb_false_iff. right. apply Nat.leb_gt. lia.
Qed.

Lemma lower_idemp s : lower (lower s) = lower s.
Proof.
  induction s as [|c s IH]; simpl; [done|]. by rewrite lower_ascii_idemp, IH.
Qed.

(** X8: with a length that is zero or negative both generators return the
    empty list and leave the random generator as it was. *)
Theorem experimental_data_nonpositive_length {F : Type} `{PyFloat F}
    (w : World F) (mode : string) (n : Z) (s : state w) :
  (n <= 0)%Z ->
  median_perf.experimental_data w n s = Ok ([], s) /\
  (valid_mode mode = true ->
   median_estimate_accuracy.experimental_data w mode n s = Ok ([], s)).
Proof.
  intros Hn. unfold median_perf.experimental_data,
    median_estimate_accuracy.experimental_data, valid_mode.
  rewrite (range_nonpos n Hn). split; [done|].
  destruct (lower mode =? "uniform")%string; [done|].
  destruct (lower mode =? "normal")%string; [done|].
  destruct (lower mode =? "exponential")%string; done.
Qed.

Lemma experimental_data_nonpositive_length_witness :
  median_perf.experimental_data fair_world (-3) 0%Z = Ok ([], 0%Z) /\
  (valid_mode "Exponential" = true ->
   median_estimate_accuracy.experimental_data fair_world "Exponential" (-3)
     0%Z = Ok ([], 0%Z)).
Proof. apply experimental_data_nonpositive_length. lia. Defined.

(** X9: the mode is matched without regard to the case of its letters: a
    valid mode gives what its lower-cased spelling gives. *)
Theorem experimental_data_ignores_case {F : Type} `{PyFloat F}
    (w : World F) (mode : string) (n : Z) (s : state w) :
  valid_mode mode = true ->
  median_estimate_accuracy.experimental_data w mode n s
  = median_estimate_accuracy.experimental_data w (lower mode) n s.
Proof.
  unfold valid_mode, median_estimate_accuracy.experimental_data.
  rewrite lower_idemp, !M_bind_run. intros Hvalid.
  destruct (lower mode =? "uniform")%string.
  { rewrite !M_bind_run.
    by destruct (comprehension _ _ s) as [[L s']| |]. }
  destruct (lower mode =? "normal")%string.
  { rewrite !M_bind_run.
    destruct (comprehension _ _ s) as [[L s']| |]; [|done..].
    rewrite !M_bind_run.
    by destruct (comprehension _ _ s') as [[L' s'']| |]. }
  destruct (lower mode =? "exponential")%string; [|done].
  rewrite !M_bind_run.
  destruct (comprehension _ _ s) as [[L s']| |]; [|done..].
  rewrite !M_bind_run.
  by destruct (comprehension _ _ s') as [[L' s'']| |].
Qed.

Lemma experimental_data_ignores_case_witness :
  median_estimate_accuracy.experimental_data fair_world "NorMal" 5 0%Z
  = median_estimate_accuracy.experimental_data fair_world (lower "NorMal") 5
      0%Z.
Proof. apply experimental_data_ignores_case. reflexivity. Defined.

(** ** Errors of [score_median] *)

(** X10: with a mode that is not valid [score_median] raises the exception
    of [experimental_data], whatever the sample size. *)
Theorem score_median_invalid_mode {F : Type} `{PyFloat F} (w : World F)
    (mode : string) (k : Z) (s : state w) :
  valid_mode mode = false ->
  median_estimate_accuracy.score_median w mode k s
  = Raise (Exception ("Please choose a valid mode. " ++ mode
                      ++ " is not valid.")%string).
Proof.
  unfold valid_mode, median_estimate_accuracy.score_median,
    median_estimate_accuracy.experimental_data.
  intros Hvalid. rewrite !M_bind_run.
  destruct (lower mode =? "uniform")%string; [done|].
  destruct (lower mode =? "normal")%string; [done|].
  destruct (lower mode =? "exponential")%string; done.
Qed.

Lemma score_median_invalid_mode_witness :
  median_estimate_accuracy.score_median fair_world "gamma" 4 0%Z
  = Raise (Exception ("Please choose a valid mode. " ++ "gamma"
                      ++ " is not valid.")%string).
Proof. apply score_median_invalid_mode. reflexivity. Defined.

Section score_errors.
Context (w : World Q).

Import median_estimate_accuracy.

(** [score_median] up to the call of [sample]. *)
Lemma score_median_to_sample mode k s :
  valid_mode mode = true ->
  exists pop s1 a,
    experimental_data w mode 16384 s = Ok (pop, s1) /\
    Z.of_nat (length pop) = 16384%Z /\
    sorted Qltb pop !! (length pop / 2) = Some a /\
    score_median w mode k s =
      (smp ← sample w (sorted Qltb pop) k;
       let sorted_sample := sorted Qltb smp in
       estimated_median ←
         lift (getitem sorted_sample (length sorted_sample / 2));
       score ← lift (f_truediv (f_abs (f_sub estimated_median a)) a);
       mret score) s1.
Proof.
  intros Hmode.
  pose proof (experimental_data_run w mode 16384 s ltac:(lia)) as Hpop.
  rewrite Hmode in Hpop. destruct Hpop as (pop & s1 & Hpop & Hlen).
  pose proof (length_sorted Qltb pop) as Hlens.
  destruct (lookup_lt_is_Some_2 (sorted Qltb pop) (length pop / 2))
    as [a Ha]; [lia|].
  exists pop, s1, a. split_and!; [done..|].
  unfold score_median. change (@f_ltb Q exact) with Qltb.
  rewrite (M_bind_Ok _ _ _ _ _ Hpop). cbn zeta. rewrite Hlens.
  by rewrite (M_bind_Ok _ _ _ _ _ (lift_Ok _ s1 _ (getitem_Ok _ _ _ Ha))).
Qed.
End score_errors.

(** X11: for a valid mode, a sample size that is negative or larger than
    the population makes [score_median] raise [ValueError], and a sample
    size of 0 makes it raise [IndexError]. *)
Theorem score_median_sample_size_errors (w : World Q) (mode : string)
    (k : Z) (s : state w) :
  library_contract w -> valid_mode mode = true ->
  ((k < 0 \/ 16384 < k)%Z ->
   median_estimate_accuracy.score_median w mode k s = Raise ValueError) /\
  (k = 0%Z ->
   median_estimate_accuracy.score_median w mode k s = Raise IndexError).
Proof.
  intros contract Hmode.
  destruct (score_median_to_sample w mode k s Hmode)
    as (pop & s1 & a & Hpop & Hlen & Ha & ->).
  pose proof (length_sorted Qltb pop) as Hlens.
  split.
  - intros Hk. rewrite M_bind_run. unfold sample.
    case_decide; [lia|]. done.
  - intros ->.
    destruct (sample_run w contract (sorted Qltb pop) 0 s1)
      as (smp & s2 & Hsmp & Hlen' & _); [lia|].
    rewrite (M_bind_Ok _ _ _ _ _ Hsmp).
    destruct smp; [done|simpl in Hlen'; lia].
Qed.

Lemma score_median_sample_size_errors_witness :
  ((20000 < 0 \/ 16384 < 20000)%Z ->
   median_estimate_accuracy.score_median fair_world "uniform" 20000 0%Z
   = Raise ValueError) /\
  (20000%Z = 0%Z ->
   median_estimate_accuracy.score_median fair_world "uniform" 20000 0%Z
   = Raise IndexError).
Proof.
  apply score_median_sample_size_errors;
    [apply fair_world_contract|reflexivity].
Defined.

(** X12: when the sample is the whole population, the two medians are the
    same and the score, if the median is not zero, is zero. *)
Theorem score_median_whole_population (w : World Q) (mode : string)
    (s : state w) :
  library_contract w -> valid_mode mode = true ->
  (exists v s',
     median_estimate_accuracy.score_median w mode 16384 s = Ok (v, s') /\
     (v == 0)%Q)
  \/ median_estimate_accuracy.score_median w mode 16384 s
     = Raise ZeroDivisionError.
Proof.
  intros contract Hmode.
  destruct (score_median_run w contract mode 16384 s Hmode ltac:(lia))
    as (pop & s1 & smp & s2 & a & e & Hpop & Hlen & Ha & Hsmp & Hlen' & Hsub
        & He & ->).
  destruct (Qeq_bool a 0) eqn:Hz; [by right|]. left.
  apply Qeq_bool_neq in Hz.
  exists (Qabs (e - a) / a)%Q, s2. split; [done|].
  assert (smp ≡ₚ pop) as Hperm.
  { apply submseteq_length_Permutation; [done|lia]. }
  assert (e == a)%Q as ->.
  { apply same_value_Qeq.
    apply (splits_same_value Qltb Qltb_asym Qltb_negtrans pop
             (length pop / 2)).
    - apply (splits_at_perm Qltb smp pop e Hperm), (rank_splits Qltb).
      exists (sorted Qltb smp). split_and!; [apply sorted_perm| |done].
      apply (sorted_sorted Qltb Qltb_asym Qltb_negtrans).
    - apply (rank_splits Qltb).
      exists (sorted Qltb pop). split_and!; [apply sorted_perm| |done].
      apply (sorted_sorted Qltb Qltb_asym Qltb_negtrans). }
  assert (a - a == 0)%Q as -> by ring.
  change (Qabs 0) with 0%Q. by field.
Qed.

Lemma score_median_whole_population_witness :
  (exists v s',
     median_estimate_accuracy.score_median fair_world "normal" 16384 0%Z
     = Ok (v, s') /\ (v == 0)%Q)
  \/ median_estimate_accuracy.score_median fair_world "normal" 16384 0%Z
     = Raise ZeroDivisionError.
Proof.
  apply score_median_whole_population;
    [apply fair_world_contract|reflexivity].
Defined.

(** ** The two generators side by side *)

(** X13: in the mode "uniform" the generator of the accuracy script is the
    generator of the performance script: same numbers, same state of the
    random generator, same failures. *)
Theorem generators_coincide {F : Type} `{PyFloat F} (w : World F)
    (mode : string) (n : Z) (s : state w) :
  (lower mode =? "uniform")%string = true ->
  median_estimate_accuracy.experimental_data w mode n s
  = median_perf.experimental_data w n s.
Proof.
  intros Hmode.
  unfold median_estimate_accuracy.experimental_data,
    median_perf.experimental_data.
  rewrite Hmode, !M_bind_run.
  by destruct (comprehension _ _ s) as [[L s']| |].
Qed.

Lemma generators_coincide_witness :
  median_estimate_accuracy.experimental_data fair_world "Uniform" 7 0%Z
  = median_perf.experimental_data fair_world 7 0%Z.
Proof. apply generators_coincide. reflexivity. Defined.

(** X14: under the contract of [random] the generator of the performance
    script never fails: it returns as many numbers as asked for (none for
    a negative length), each at least 0 and below 1. *)
Theorem perf_experimental_data_total (w : World Q) (n : Z) (s : state w) :
  library_contract w ->
  exists L s',
    median_perf.experimental_data w n s = Ok (L, s') /\
    length L = Z.to_nat n /\
    Forall (fun x => 0 <= x < 1)%Q L.
Proof.
  intros contract. unfold median_perf.experimental_data.
  destruct (comprehension_total (fun _ : Z => call (random w))
              (fun _ x => 0 <= x < 1)%Q (range n)) with (s := s)
    as (L & s' & Hrun & Hall).
  { intros i s0 _. unfold call. exists (random w s0).1, (random w s0).2.
    split; [by destruct (random w s0)|apply (random_range w contract)]. }
  exists L, s'. split_and!; [done|..].
  - rewrite <-(Forall2_length _ _ _ Hall).
    destruct (Z_le_gt_dec 0 n) as [Hn|Hn].
    + pose proof (length_range n Hn). lia.
    + rewrite range_nonpos by lia. cbn [length]. lia.
  - eapply Forall2_Forall_r; [exact Hall|]. by intros i x Hx.
Qed.

Lemma perf_experimental_data_total_witness :
  exists L s',
    median_perf.experimental_data fair_world 3 0%Z = Ok (L, s') /\
    length L = Z.to_nat 3 /\
    Forall (fun x => 0 <= x < 1)%Q L.
Proof. apply perf_experimental_data_total, fair_world_contract. Defined.

(** ** Binning in exact arithmetic *)

Lemma Qround_half_even_mono x y :
  (x <= y)%Q -> (Qround_half_even x <= Qround_half_even y)%Z.
Proof.
  intros Hxy. unfold Qround_half_even.
  pose proof (Qfloor_resp_le x y Hxy) as Hf.
  pose proof (Qfloor_le x) as Hxlo. pose proof (Qlt_floor x) as Hxhi.
  pose proof (Qfloor_le y) as Hylo. pose proof (Qlt_floor y) as Hyhi.
  destruct (decide (Qfloor x = Qfloor y)) as [Heq|Hne].
  - rewrite <-Heq in *. clear Heq Hf.
    destruct (x - inject_Z (Qfloor x) ?= 1 # 2)%Q eqn:Ex;
      destruct (y - inject_Z (Qfloor x) ?= 1 # 2)%Q eqn:Ey;
      first [apply Qeq_alt in Ex|apply Qlt_alt in Ex|apply Qgt_alt in Ex];
      first [apply Qeq_alt in Ey|apply Qlt_alt in Ey|apply Qgt_alt in Ey];
      destruct (Z.even (Qfloor x)); try lia; exfalso; lra.
  - destruct (x - inject_Z (Qfloor x) ?= 1 # 2)%Q;
      destruct (y - inject_Z (Qfloor y) ?= 1 # 2)%Q;
      destruct (Z.even (Qfloor x)); destruct (Z.even (Qfloor y)); lia.
Qed.

(** X16: binning in exact arithmetic keeps the order of the values. *)
Theorem bin_monotone (val1 val2 b1 b2 : Q) :
  (val1 <= val2)%Q ->
  median_estimate_accuracy.bin val1 = Ok b1 ->
  median_estimate_accuracy.bin val2 = Ok b2 ->
  (b1 <= b2)%Q.
Proof.
  intros Hle. rewrite !bin_exact. intros [= <-] [= <-].
  assert (val1 * 10 <= val2 * 10)%Q as Hle10 by lra.
  apply Qround_half_even_mono in Hle10. rewrite Zle_Qle in Hle10.
  set (r1 := inject_Z (Qround_half_even (val1 * 10))) in *.
  set (r2 := inject_Z (Qround_half_even (val2 * 10))) in *.
  assert (r1 / 10 == r1 * (1 # 10))%Q as -> by (by field).
  assert (r2 / 10 == r2 * (1 # 10))%Q as -> by (by field).
  lra.
Qed.

Lemma bin_monotone_witness : (inject_Z 1 / 10 <= inject_Z 2 / 10)%Q.
Proof.
  apply (bin_monotone (14 # 100) (15 # 100)); [vm_compute; discriminate|..];
    vm_compute; reflexivity.
Defined.

(** ** Timing *)

(** X17: with a length that is zero or negative [time_median] raises
    [IndexError] with either median function: the list to time is empty. *)
Theorem time_median_nonpositive_length {F : Type} `{PyFloat F}
    (w : World F) (n : Z) (s : state w) :
  (n <= 0)%Z ->
  median_perf.time_median w (sort_median f_ltb) n s = Raise IndexError /\
  median_perf.time_median w (heap_median f_ltb) n s = Raise IndexError.
Proof.
  intros Hn. unfold median_perf.time_median, median_perf.experimental_data.
  rewrite (range_nonpos n Hn).
  split; cbn [comprehension]; rewrite !M_bind_run; cbn;
    rewrite M_bind_run; unfold call; by destruct (clock w s).
Qed.

Lemma time_median_nonpositive_length_witness :
  median_perf.time_median fair_world (sort_median f_ltb) 0 0%Z
  = Raise IndexError /\
  median_perf.time_median fair_world (heap_median f_ltb) 0 0%Z
  = Raise IndexError.
Proof. apply time_median_nonpositive_length. lia. Defined.

Lemma time_median_nonneg (w : World Q) median_func n s t s' :
  clock_never_runs_back w ->
  median_perf.time_median w median_func n s = Ok (t, s') -> (0 <= t)%Q.
Proof.
  intros Hclock Hrun. unfold median_perf.time_median in Hrun.
  apply M_bind_inv in Hrun as (data & s1 & _ & Hrun).
  apply M_bind_inv in Hrun as (t0 & s2 & Ht0 & Hrun).
  apply M_bind_inv in Hrun as (r & s3 & Hr & Hrun).
  apply M_bind_inv in Hrun as (t1 & s4 & Ht1 & Hrun).
  injection Hrun as <- <-.
  apply lift_inv in Hr as (r' & _ & [= _ ->]).
  unfold call in Ht0, Ht1. specialize (Hclock s1).
  destruct (clock w s1) as [t0' s2'] eqn:E0. injection Ht0 as -> ->.
  cbn in Hclock, Ht1.
  destruct (clock w s2) as [t1' s4'] eqn:E1. injection Ht1 as -> ->.
  cbn in Hclock. change (0 <= t1 - t0)%Q. lra.
Qed.

Lemma f_sum_nonneg (l : list Q) :
  Forall (fun x => 0 <= x)%Q l -> (0 <= f_sum l)%Q.
Proof.
  unfold f_sum. change (f_of_int 0) with 0%Q.
  assert (forall a, (0 <= a)%Q -> Forall (fun x => 0 <= x)%Q l ->
            (0 <= foldl f_add a l)%Q) as Hfold.
  { induction l as [|x l IH]; intros a Ha Hl; [done|].
    apply Forall_cons in Hl as [Hx Hl]. cbn [foldl]. apply IH; [|done].
    change (0 <= a + x)%Q. lra. }
  by apply Hfold.
Qed.

Lemma mean_of_trials_nonneg {S} (trial : M S Q) count v :
  (0 < count)%Z ->
  (forall s x s', trial s = Ok (x, s') -> (0 <= x)%Q) ->
  mean_of_trials trial count v -> (0 <= v)%Q.
Proof.
  intros Hcount Htrial (results & _ & Hall & Hv).
  unfold Qtruediv in Hv. destruct (Qeq_bool (inject_Z count) 0); [done|].
  injection Hv as <-. apply Qdiv_nonneg.
  - apply f_sum_nonneg. eapply Forall_impl; [exact Hall|].
    intros x (s1 & s2 & Hx). by eapply Htrial.
  - change 0%Q with (inject_Z 0). by rewrite <-Zlt_Qlt.
Qed.

(** X18: when the clock never runs back, a run of [time_median] that
    returns gives a time that is not negative, and so is every mean that
    the performance experiment puts into its two tables. *)
Theorem timings_nonnegative (w : World Q) (s : state w) :
  clock_never_runs_back w ->
  (forall median_func n t s',
     median_perf.time_median w median_func n s = Ok (t, s') -> (0 <= t)%Q) /\
  exists sorted_results heap_results s',
    median_perf.run_test w s = Ok ((sorted_results, heap_results), s') /\
    map_Forall (fun _ v => 0 <= v)%Q sorted_results /\
    map_Forall (fun _ v => 0 <= v)%Q heap_results.
Proof.
  intros Hclock. split.
  { intros median_func n t s'. by apply time_median_nonneg. }
  destruct (run_test_tables_perf w s)
    as (sr & hr & s' & Hrun & [_ Hsr] & [_ Hhr]).
  exists sr, hr, s'. split_and!; [done|..].
  - eapply map_Forall_impl; [exact Hsr|]. intros k v Hv. cbn in Hv.
    eapply mean_of_trials_nonneg; [|  |exact Hv]; [lia|].
    intros s0 x s0'. by apply time_median_nonneg.
  - eapply map_Forall_impl; [exact Hhr|]. intros k v Hv. cbn in Hv.
    eapply mean_of_trials_nonneg; [|  |exact Hv]; [lia|].
    intros s0 x s0'. by apply time_median_nonneg.
Qed.

Lemma stream_clock_never_runs_back rnd gss expo :
  clock_never_runs_back (stream_world rnd gss expo inject_Z).
Proof. intros s. cbn. rewrite <-Zle_Qle. lia. Qed.

Lemma timings_nonnegative_witness :
  (forall median_func n t s',
     median_perf.time_median fair_world median_func n 0%Z = Ok (t, s') ->
     (0 <= t)%Q) /\
  exists sorted_results heap_results s',
    median_perf.run_test fair_world 0%Z
    = Ok ((sorted_results, heap_results), s') /\
    map_Forall (fun _ v => 0 <= v)%Q sorted_results /\
    map_Forall (fun _ v => 0 <= v)%Q heap_results.
Proof.
  apply timings_nonnegative. apply stream_clock_never_runs_back.
Defined.

(** ** Signs in the tables of the accuracy experiment *)

Lemma score_median_nonneg (w : World Q) mode k s v s' :
  library_contract w -> valid_mode mode = true ->
  (lower mode =? "normal")%string = false -> (1 <= k <= 16384)%Z ->
  median_estimate_accuracy.score_median w mode k s = Ok (v, s') ->
  (0 <= v)%Q.
Proof.
  intros contract Hmode Hnormal Hk Hrun.
  destruct (score_median_run w contract mode k s Hmode Hk)
    as (pop & s1 & smp & s2 & a & e & Hpop & Hlen & Ha & _ & _ & _ & _
        & Hscore).
  rewrite Hrun in Hscore. destruct (Qeq_bool a 0) eqn:Hz; [done|].
  assert (v = (Qabs (e - a) / a)%Q) as -> by congruence.
  clear Hscore Hrun. apply Qeq_bool_neq in Hz.
  apply Qdiv_nonneg; [apply Qabs_nonneg|].
  pose proof (experimental_data_nonneg w contract mode 16384 s pop s1
                Hnormal Hpop) as Hnonneg.
  assert (a ∈ pop) as Ha'.
  { rewrite <-(sorted_perm Qltb pop). by eapply list_elem_of_lookup_2. }
  pose proof (proj1 (Forall_forall _ _) Hnonneg a Ha') as Ha0. cbn in Ha0.
  destruct (Qlt_le_dec 0 a) as [Hlt|Hle]; [done|].
  exfalso. apply Hz. lra.
Qed.

Lemma range3_4_128_4_bounds k :
  k ∈ range3 4 128 4 -> (1 <= k <= 16384)%Z.
Proof.
  intros Hk.
  assert (Forall (fun k => 1 <= k <= 16384)%Z (range3 4 128 4)) as Hall.
  { apply (bool_decide_unpack _). vm_compute. reflexivity. }
  by apply (proj1 (Forall_forall _ _) Hall).
Qed.

(** X19: under the contract of [random], when the loop of the accuracy
    experiment completes, no mean score in the table of the uniform
    numbers or in the table of the exponential numbers is negative. *)
Theorem uniform_exponential_tables_nonnegative (w : World Q) (s : state w)
    (u n e : gmap Z Q) (s' : state w) :
  library_contract w ->
  median_estimate_accuracy.run_test w s = Ok ((u, n, e), s') ->
  map_Forall (fun _ v => 0 <= v)%Q u /\ map_Forall (fun _ v => 0 <= v)%Q e.
Proof.
  intros contract Hrun.
  destruct (run_test_tables w s u n e s' Hrun) as (Hu & _ & He).
  assert (forall mode (t : gmap Z Q),
    valid_mode mode = true -> (lower mode =? "normal")%string = false ->
    table_of (range3 4 128 4)
      (fun k => mean_of_trials
                  (median_estimate_accuracy.score_median w mode k) 20) t ->
    map_Forall (fun _ v => 0 <= v)%Q t) as Htable.
  { intros mode t Hmode Hnormal Ht.
    destruct (table_of_entries _ _ _ Ht) as [Hkeys Hentries].
    intros k v Hkv. pose proof (Hentries k v Hkv) as Hv. cbn in Hv.
    eapply mean_of_trials_nonneg; [|  |exact Hv]; [lia|].
    intros s0 x s0'. apply score_median_nonneg; [done..|].
    apply range3_4_128_4_bounds, Hkeys. by exists v. }
  split; [apply (Htable "uniform"%string)|apply (Htable "exponential"%string)];
    (reflexivity || assumption).
Qed.

Lemma uniform_exponential_tables_nonnegative_witness :
  exists u n e s',
    median_estimate_accuracy.run_test fair_world 0%Z = Ok ((u, n, e), s') /\
    map_Forall (fun _ v => 0 <= v)%Q u /\ map_Forall (fun _ v => 0 <= v)%Q e.
Proof.
  destruct (run_test_total fair_world fair_world_contract fair_world_positive
              0%Z) as ([[u n] e] & s' & Hrun).
  exists u, n, e, s'. split; [exact Hrun|].
  exact (uniform_exponential_tables_nonnegative fair_world 0%Z u n e s'
           fair_world_contract Hrun).
Defined.

(** ** The plots *)

Lemma item_ltb_exact (a b : Z * Q) :
  item_ltb a b =
  if negb (a.1 =? b.1)%Z then (a.1 <? b.1)%Z
  else if negb (Qeq_bool a.2 b.2) then Qltb a.2 b.2
  else false.
Proof. reflexivity. Qed.

Lemma item_ltb_keys (a b : Z * Q) :
  a.1 <> b.1 -> item_ltb a b = (a.1 <? b.1)%Z.
Proof.
  intros Hne. rewrite item_ltb_exact.
  by destruct (Z.eqb_spec a.1 b.1).
Qed.

Lemma item_ltb_asym (a b : Z * Q) : item_ltb a b = true -> item_ltb b a = false.
Proof.
  rewrite !item_ltb_exact.
  destruct (Z.eqb_spec a.1 b.1) as [Hab|Hab];
    destruct (Z.eqb_spec b.1 a.1) as [Hba|Hba]; try congruence; cbn [negb].
  - destruct (Qeq_bool a.2 b.2) eqn:E1; cbn [negb]; [done|].
    destruct (Qeq_bool b.2 a.2) eqn:E2; cbn [negb]; [done|]. apply Qltb_asym.
  - intros Hlt%Z.ltb_lt. apply Z.ltb_ge. lia.
Qed.

Lemma item_ltb_negtrans (a b c : Z * Q) :
  item_ltb a c = true -> item_ltb a b = true \/ item_ltb b c = true.
Proof.
  rewrite !item_ltb_exact.
  destruct (Z.eqb_spec a.1 c.1) as [Hac|Hac];
    destruct (Z.eqb_spec a.1 b.1) as [Hab|Hab];
    destruct (Z.eqb_spec b.1 c.1) as [Hbc|Hbc]; try congruence; cbn [negb];
    rewrite ?Z.ltb_lt.
  - destruct (Qeq_bool a.2 c.2) eqn:Eac; cbn [negb]; [done|].
    intros Hlt.
    destruct (Qltb_negtrans _ b.2 _ Hlt) as [H1|H2].
    + left. destruct (Qeq_bool a.2 b.2) eqn:Eab; cbn [negb]; [|done].
      apply Qeq_bool_iff in Eab. apply Qltb_spec in H1. lra.
    + right. destruct (Qeq_bool b.2 c.2) eqn:Ebc; cbn [negb]; [|done].
      apply Qeq_bool_iff in Ebc. apply Qltb_spec in H2. lra.
  - lia.
  - intros Hlt. right. lia.
  - intros Hlt. left. lia.
  - lia.
Qed.

Lemma sorted_keys_increase (l : list (Z * Q)) :
  StronglySorted (le_of item_ltb) l -> NoDup l.*1 ->
  StronglySorted Z.lt l.*1.
Proof.
  induction 1 as [|a l Hl IH Ha]; intros Hnodup; [constructor|].
  cbn [fmap list_fmap] in *. apply NoDup_cons in Hnodup as [Hnotin Hnodup].
  constructor; [by apply IH|].
  apply Forall_fmap, Forall_forall. intros b Hb. cbn.
  pose proof (proj1 (Forall_forall _ _) Ha b Hb) as Hle.
  unfold le_of in Hle.
  assert (b.1 <> a.1) as Hne.
  { intros Heq. apply Hnotin. rewrite <-Heq. by apply list_elem_of_fmap_2. }
  rewrite (item_ltb_keys b a Hne) in Hle. apply Z.ltb_ge in Hle. lia.
Qed.

Lemma increasing_unique (l1 l2 : list Z) :
  StronglySorted Z.lt l1 -> StronglySorted Z.lt l2 ->
  (forall x, x ∈ l1 <-> x ∈ l2) -> l1 = l2.
Proof.
  intros H1 H2 Hiff.
  assert (forall l, StronglySorted Z.lt l -> NoDup l) as Hnodup.
  { induction 1 as [|x l Hl IH Hx]; constructor; [|done].
    intros Hin. pose proof (proj1 (Forall_forall _ _) Hx x Hin). lia. }
  assert (AntiSymm eq Z.lt) as Hanti by (intros x y Hxy Hyx; lia).
  apply (StronglySorted_unique Z.lt); [done..|].
  apply NoDup_Permutation; auto.
Qed.

Lemma rows_unique {A B} (l1 l2 : list (A * B)) :
  l1.*1 = l2.*1 ->
  (forall k v1 v2, (k, v1) ∈ l1 -> (k, v2) ∈ l2 -> v1 = v2) ->
  l1 = l2.
Proof.
  revert l2. induction l1 as [|[k v] l1 IH]; intros [|[k' v'] l2] Hkeys Hvals;
    try done.
  cbn in Hkeys. injection Hkeys as -> Hkeys.
  rewrite (Hvals k' v v') by (by left). f_equal.
  apply IH; [done|]. intros k v1 v2 H1 H2. apply (Hvals k); by right.
Qed.

Lemma rows_columns {A B} (P : A -> B -> Prop) (l : list (A * B)) :
  Forall (fun r => P r.1 r.2) l -> Forall2 P l.*1 l.*2.
Proof. induction 1; constructor; done. Qed.

Section sorted_rows.
Context (rows : list (Z * Q)) (distinct_keys : NoDup rows.*1).

Lemma sorted_rows_perm : sorted item_ltb rows ≡ₚ rows.
Proof. apply sorted_perm. Qed.

Lemma sorted_rows_keys : StronglySorted Z.lt (sorted item_ltb rows).*1.
Proof.
  apply sorted_keys_increase.
  - apply (sorted_sorted item_ltb item_ltb_asym item_ltb_negtrans).
  - by rewrite sorted_rows_perm.
Qed.
End sorted_rows.

Lemma sorted_dict_items_line (t : gmap Z Q) :
  line_of t (sorted_dict_items t).*1 (sorted_dict_items t).*2.
Proof.
  unfold sorted_dict_items.
  pose proof (sorted_rows_perm (map_to_list t)) as Hperm.
  split_and!.
  - apply sorted_rows_keys, NoDup_fst_map_to_list.
  - intros k. rewrite Hperm, list_elem_of_fmap. split.
    + intros ([k' v] & -> & Hin%elem_of_map_to_list). by exists v.
    + intros [v Hv]. exists (k, v). by rewrite elem_of_map_to_list.
  - apply rows_columns, Forall_forall. intros [k v] Hin.
    rewrite Hperm in Hin. by apply elem_of_map_to_list.
Qed.

Lemma sorted_dict_items_nil (t : gmap Z Q) :
  sorted_dict_items t = [] <-> t = ∅.
Proof.
  rewrite <-map_to_list_empty_iff. unfold sorted_dict_items.
  pose proof (sorted_perm item_ltb (map_to_list t)) as Hperm. split.
  - intros Hnil. rewrite Hnil in Hperm. symmetry. by apply Permutation_nil_l.
  - intros Hnil. by rewrite Hnil.
Qed.

(** The columns that the plot reads off a table. *)
Lemma columns_of_table (t : gmap Z Q) :
  (t = ∅ /\ zip_star (sorted_dict_items t) = None) \/
  (t <> ∅ /\ exists xs ys,
     zip_star (sorted_dict_items t) = Some (xs, ys) /\ line_of t xs ys).
Proof.
  pose proof (sorted_dict_items_line t) as Hline.
  pose proof (sorted_dict_items_nil t) as Hnil.
  destruct (sorted_dict_items t) as [|r l] eqn:E.
  - left. split; [by apply Hnil|done].
  - right. split.
    + intros Ht. by apply Hnil in Ht.
    + by exists ((r :: l).*1), ((r :: l).*2).
Qed.

Lemma line_of_unique (t : gmap Z Q) xs ys xs' ys' :
  line_of t xs ys -> line_of t xs' ys' -> xs = xs' /\ ys = ys'.
Proof.
  intros (Hs & Hk & Hv) (Hs' & Hk' & Hv').
  assert (xs = xs') as <-.
  { apply increasing_unique; [done..|]. intros x. by rewrite Hk, Hk'. }
  split; [done|]. clear Hs Hs' Hk Hk'. revert ys' Hv'.
  induction Hv as [|x y xs ys Hx _ IH]; intros ys' Hv'.
  - by apply Forall2_nil_inv_l in Hv'.
  - apply Forall2_cons_inv_l in Hv' as (y' & ys'' & Hy' & Hv' & ->).
    f_equal; [congruence|by apply IH].
Qed.

Lemma line_of_table keys entry (t : gmap Z Q) xs ys :
  StronglySorted Z.lt keys -> table_of keys entry t -> line_of t xs ys ->
  xs = keys /\ Forall2 entry keys ys.
Proof.
  intros Hkeys Ht (Hs & Hk & Hv).
  destruct (table_of_entries _ _ _ Ht) as [Hdom Hentries].
  assert (xs = keys) as ->.
  { apply increasing_unique; [done..|]. intros x. by rewrite Hk, Hdom. }
  split; [done|]. eapply Forall2_impl; [exact Hv|]. apply Hentries.
Qed.

Lemma table_of_nonempty keys entry (t : gmap Z Q) :
  keys <> [] -> table_of keys entry t -> t <> ∅.
Proof.
  intros Hkeys [Hdom _] ->. rewrite dom_empty_L in Hdom.
  destruct keys as [|k keys]; [done|].
  assert (k ∈ (∅ : gset Z)) as Hk; [|set_solver].
  rewrite Hdom. set_solver.
Qed.

(** X20: the plot of the performance script raises [IndexError] when one of
    its tables is empty.  Otherwise it draws the table of the sort median
    in cyan and that of the heap median in magenta, each with its keys in
    increasing order and each value at the position of its key, then sets
    the title and the labels of the axes and shows the figure. *)
Theorem median_line_plot_perf (sorted_results heap_results : gmap Z Q) :
  (sorted_results = ∅ \/ heap_results = ∅ ->
   median_perf.median_line_plot sorted_results heap_results
   = Raise IndexError) /\
  (sorted_results <> ∅ -> heap_results <> ∅ ->
   exists xs1 ys1 xs2 ys2,
     median_perf.median_line_plot sorted_results heap_results
     = Ok [plt_plot xs1 ys1 "cyan"; plt_plot xs2 ys2 "magenta";
           plt_title "Sort Median (cyan) vs Heap Median (magenta)" "green";
           plt_xlabel "length of list";
           plt_ylabel "computing time (seconds)";
           plt_show] /\
     line_of sorted_results xs1 ys1 /\ line_of heap_results xs2 ys2).
Proof.
  unfold median_perf.median_line_plot.
  destruct (columns_of_table sorted_results)
    as [[Hs ->]|(Hs & xs1 & ys1 & -> & Hl1)];
    destruct (columns_of_table heap_results)
      as [[Hh ->]|(Hh & xs2 & ys2 & -> & Hl2)];
    (split; [intros Hempty|intros Hne1 Hne2]); try done.
  - by destruct Hempty.
  - by exists xs1, ys1, xs2, ys2.
Qed.

Lemma median_line_plot_perf_witness :
  exists xs1 ys1 xs2 ys2,
    median_perf.median_line_plot
      (<[2%Z := 1%Q]> (<[1%Z := 3%Q]> ∅)) (<[5%Z := 0%Q]> ∅)
    = Ok [plt_plot xs1 ys1 "cyan"; plt_plot xs2 ys2 "magenta";
          plt_title "Sort Median (cyan) vs Heap Median (magenta)" "green";
          plt_xlabel "length of list";
          plt_ylabel "computing time (seconds)";
          plt_show] /\
    line_of (<[2%Z := 1%Q]> (<[1%Z := 3%Q]> ∅)) xs1 ys1 /\
    line_of (<[5%Z := 0%Q]> ∅) xs2 ys2.
Proof. apply median_line_plot_perf; apply insert_non_empty. Defined.

(** X21: the plot of the accuracy script raises [IndexError] when one of
    its tables is empty.  Otherwise it draws the uniform table in red, the
    normal one in blue and the exponential one in grey, each with its keys
    in increasing order and each value at the position of its key, then
    sets the title and the labels of the axes and shows the figure. *)
Theorem median_line_plot_accuracy (u n e : gmap Z Q) :
  (u = ∅ \/ n = ∅ \/ e = ∅ ->
   median_estimate_accuracy.median_line_plot u n e = Raise IndexError) /\
  (u <> ∅ -> n <> ∅ -> e <> ∅ ->
   exists xs1 ys1 xs2 ys2 xs3 ys3,
     median_estimate_accuracy.median_line_plot u n e
     = Ok [plt_plot xs1 ys1 "red"; plt_plot xs2 ys2 "blue";
           plt_plot xs3 ys3 "grey";
           plt_title
             (String.append
                "Uniform (red) vs Normal (blue) vs Exponential (grey) "
                (String "010"%char "Median Estimators"))
             "green";
           plt_xlabel "sample size of median estimate";
           plt_ylabel "score (smaller is better)";
           plt_show] /\
     line_of u xs1 ys1 /\ line_of n xs2 ys2 /\ line_of e xs3 ys3).
Proof.
  unfold median_estimate_accuracy.median_line_plot.
  destruct (columns_of_table u) as [[Hu ->]|(Hu & xs1 & ys1 & -> & Hl1)];
    destruct (columns_of_table n) as [[Hn ->]|(Hn & xs2 & ys2 & -> & Hl2)];
    destruct (columns_of_table e) as [[He ->]|(He & xs3 & ys3 & -> & Hl3)];
    (split; [intros Hempty|intros Hne1 Hne2 Hne3]); try done.
  - by destruct Hempty as [?|[?|?]].
  - by exists xs1, ys1, xs2, ys2, xs3, ys3.
Qed.

Lemma median_line_plot_accuracy_witness :
  median_estimate_accuracy.median_line_plot
    (<[4%Z := 1%Q]> ∅) ∅ (<[4%Z := 0%Q]> ∅)
  = Raise IndexError.
Proof. apply median_line_plot_accuracy. right. by left. Defined.

(** X22: the sorted items do not depend on the order in which a dict lists
    them: two lists of the same items with distinct keys are sorted into
    the same list, whose keys increase. *)
Theorem sorted_items_order_irrelevant (rows1 rows2 : list (Z * Q)) :
  NoDup rows1.*1 -> rows1 ≡ₚ rows2 ->
  sorted item_ltb rows1 = sorted item_ltb rows2 /\
  StronglySorted Z.lt (sorted item_ltb rows1).*1.
Proof.
  intros Hnodup Hperm.
  assert (NoDup rows2.*1) as Hnodup' by (by rewrite <-Hperm).
  pose proof (sorted_rows_keys rows1 Hnodup) as Hs1.
  pose proof (sorted_rows_keys rows2 Hnodup') as Hs2.
  split; [|done]. apply rows_unique.
  - apply increasing_unique; [done..|]. intros k.
    by rewrite !sorted_rows_perm, Hperm.
  - intros k v1 v2 H1 H2. rewrite sorted_rows_perm in H1, H2.
    rewrite <-Hperm in H2. clear -Hnodup H1 H2.
    induction rows1 as [|[k' v'] rows1 IH]; [by apply elem_of_nil in H1|].
    cbn in Hnodup. apply NoDup_cons in Hnodup as [Hnotin Hnodup].
    apply elem_of_cons in H1 as [H1|H1]; apply elem_of_cons in H2 as [H2|H2].
    + congruence.
    + injection H1 as -> ->. exfalso. apply Hnotin.
      by apply (list_elem_of_fmap_2 fst _ (k', v2)).
    + injection H2 as -> ->. exfalso. apply Hnotin.
      by apply (list_elem_of_fmap_2 fst _ (k', v1)).
    + by apply IH.
Qed.

Lemma sorted_items_order_irrelevant_witness :
  sorted item_ltb [(3%Z, (1 # 2)%Q); (1%Z, 7%Q); (2%Z, 0%Q)]
  = sorted item_ltb [(2%Z, 0%Q); (3%Z, (1 # 2)%Q); (1%Z, 7%Q)] /\
  StronglySorted Z.lt
    (sorted item_ltb [(3%Z, (1 # 2)%Q); (1%Z, 7%Q); (2%Z, 0%Q)]).*1.
Proof.
  apply sorted_items_order_irrelevant.
  - apply (bool_decide_unpack _). vm_compute. reflexivity.
  - change ([(3%Z, (1 # 2)%Q); (1%Z, 7%Q); (2%Z, 0%Q)]
            ≡ₚ [(2%Z, 0%Q)] ++ [(3%Z, (1 # 2)%Q); (1%Z, 7%Q)]).
    apply Permutation_app_comm with (l := [(3%Z, (1 # 2)%Q); (1%Z, 7%Q)]).
Defined.

(** ** The scripts as a whole *)

Lemma lengths_increase :
  StronglySorted Z.lt (range3 (2 ^ 10) (2 ^ 19) (2 ^ 15)).
Proof. apply (bool_decide_unpack _). vm_compute. reflexivity. Qed.

Lemma sample_sizes_increase : StronglySorted Z.lt (range3 4 128 4).
Proof. apply (bool_decide_unpack _). vm_compute. reflexivity. Qed.

(** X23: the performance script always runs to its end: it draws two
    lines over the 16 lengths of [range(2**10, 2**19, 2**15)], whose values
    are the means of 5 timings of the sort median and of the heap median,
    and shows the figure. *)
Theorem performance_script_completes (w : World Q) (s : state w) :
  exists ys1 ys2 s',
    median_perf.run_test_and_plot w s
    = Ok ([plt_plot (range3 (2 ^ 10) (2 ^ 19) (2 ^ 15)) ys1 "cyan";
           plt_plot (range3 (2 ^ 10) (2 ^ 19) (2 ^ 15)) ys2 "magenta";
           plt_title "Sort Median (cyan) vs Heap Median (magenta)" "green";
           plt_xlabel "length of list";
           plt_ylabel "computing time (seconds)";
           plt_show], s') /\
    length (range3 (2 ^ 10) (2 ^ 19) (2 ^ 15)) = 16 /\
    Forall2
      (fun k y =>
         mean_of_trials (median_perf.time_median w (sort_median Qltb) k) 5 y)
      (range3 (2 ^ 10) (2 ^ 19) (2 ^ 15)) ys1 /\
    Forall2
      (fun k y =>
         mean_of_trials (median_perf.time_median w (heap_median Qltb) k) 5 y)
      (range3 (2 ^ 10) (2 ^ 19) (2 ^ 15)) ys2.
Proof.
  destruct (run_test_tables_perf w s) as (sr & hr & s' & Hrun & Hsr & Hhr).
  assert (range3 (2 ^ 10) (2 ^ 19) (2 ^ 15) <> []) as Hkeys by done.
  pose proof (table_of_nonempty _ _ _ Hkeys Hsr) as Hne1.
  pose proof (table_of_nonempty _ _ _ Hkeys Hhr) as Hne2.
  unfold median_perf.run_test_and_plot.
  rewrite (M_bind_Ok _ _ _ _ _ Hrun). unfold median_perf.median_line_plot.
  destruct (columns_of_table sr) as [[? _]|(_ & xs1 & ys1 & -> & Hl1)];
    [done|].
  destruct (columns_of_table hr) as [[? _]|(_ & xs2 & ys2 & -> & Hl2)];
    [done|].
  destruct (line_of_table _ _ _ _ _ lengths_increase Hsr Hl1) as [-> Hy1].
  destruct (line_of_table _ _ _ _ _ lengths_increase Hhr Hl2) as [-> Hy2].
  exists ys1, ys2, s'. split_and!; done.
Qed.

(** ** When the accuracy script runs to its end *)

Lemma comprehension_total_from {S T U} (J : S -> Prop) (body : T -> M S U) l :
  (forall i s, i ∈ l -> J s -> exists x s', body i s = Ok (x, s') /\ J s') ->
  forall s, J s ->
    exists xs s', comprehension body l s = Ok (xs, s') /\ J s'.
Proof.
  induction l as [|i l IH]; intros Hbody s HJ; cbn [comprehension].
  { by exists [], s. }
  destruct (Hbody i s) as (x & s1 & Hx & HJ1); [by left|done|].
  destruct IH with (s := s1) as (xs & s2 & Hxs & HJ2); [|done|].
  { intros j s0 Hj. apply Hbody. by right. }
  exists (x :: xs), s2. rewrite (M_bind_Ok _ _ _ _ _ Hx).
  by rewrite (M_bind_Ok _ _ _ _ _ Hxs).
Qed.

Lemma for_loop_total_from {S T U} (J : S -> Prop) (body : U -> T -> M S U) l :
  (forall acc i s, i ∈ l -> J s ->
     exists acc' s', body acc i s = Ok (acc', s') /\ J s') ->
  forall acc s, J s ->
    exists acc' s', for_loop body acc l s = Ok (acc', s') /\ J s'.
Proof.
  induction l as [|i l IH]; intros Hbody acc s HJ; cbn [for_loop].
  { by exists acc, s. }
  destruct (Hbody acc i s) as (acc1 & s1 & Hacc & HJ1); [by left|done|].
  rewrite (M_bind_Ok _ _ _ _ _ Hacc). apply IH; [|done].
  intros acc0 j s0 Hj. apply Hbody. by right.
Qed.

Section accuracy_completes_from.
Context (w : World Q) (contract : library_contract w).
Context (I : state w -> Prop) (closed : closed_under_scoring w I).

Import median_estimate_accuracy.

Hypothesis medians : medians_not_zero w I.

Lemma score_median_total_from mode k s :
  mode ∈ ["uniform"; "normal"; "exponential"]%string ->
  k ∈ range3 4 128 4 -> I s ->
  exists v s', score_median w mode k s = Ok (v, s') /\ I s'.
Proof.
  intros Hmode Hk HI.
  assert (valid_mode mode = true) as Hvalid.
  { pose proof Hmode as Hm.
    by repeat (apply elem_of_cons in Hm as [->|Hm]; [done|]);
      apply elem_of_nil in Hm. }
  destruct (score_median_run w contract mode k s Hvalid
              (range3_4_128_4_bounds k Hk))
    as (pop & s1 & smp & s2 & a & e & Hpop & _ & Ha & _ & _ & _ & _ & Hrun).
  pose proof (medians mode s pop s1 a Hmode HI Hpop Ha) as Hz.
  destruct (Qeq_bool a 0) eqn:E; [by apply Qeq_bool_iff in E|].
  exists (Qabs (e - a) / a)%Q, s2. split; [done|].
  by apply (closed mode k s _ s2 Hmode Hk HI Hrun).
Qed.

Lemma average_score_total_from mode k s :
  mode ∈ ["uniform"; "normal"; "exponential"]%string ->
  k ∈ range3 4 128 4 -> I s ->
  exists v s', average_score w mode k s = Ok (v, s') /\ I s'.
Proof.
  intros Hmode Hk HI. unfold average_score.
  destruct (comprehension_total_from I (fun _ : Z => score_median w mode k)
              (range 20)) with (s := s) as (scores & s' & Hscores & HI');
    [|done|].
  { intros _ s0 _. by apply score_median_total_from. }
  rewrite (M_bind_Ok _ _ _ _ _ Hscores). eauto.
Qed.

Lemma run_test_total_from s :
  I s -> exists tables s', run_test w s = Ok (tables, s').
Proof.
  intros HI. rewrite <-run_test_unfold.
  destruct (for_loop_total_from (U := gmap Z Q * gmap Z Q * gmap Z Q) I
    (fun '(uniform_results, normal_results, exponential_results)
         sample_size =>
       u ← average_score w "uniform" sample_size;
       let uniform_results := <[sample_size := u]> uniform_results in
       n ← average_score w "normal" sample_size;
       let normal_results := <[sample_size := n]> normal_results in
       e ← average_score w "exponential" sample_size;
       let exponential_results :=
         <[sample_size := e]> exponential_results in
       mret (uniform_results, normal_results, exponential_results))
    (range3 4 128 4))
    with (acc := (∅ : gmap Z Q, ∅ : gmap Z Q, ∅ : gmap Z Q)) (s := s)
    as (tables & s' & Hrun & _); [|done|eauto].
  intros [[u n] e] i s0 Hi HI0.
  destruct (average_score_total_from "uniform" i s0)
    as (vu & sa & Hvu & HIa); [by left|done..|].
  destruct (average_score_total_from "normal" i sa)
    as (vn & sb & Hvn & HIb); [by right; left|done..|].
  destruct (average_score_total_from "exponential" i sb)
    as (ve & sc & Hve & HIc); [by right; right; left|done..|].
  rewrite (M_bind_Ok _ _ _ _ _ Hvu). cbn zeta.
  rewrite (M_bind_Ok _ _ _ _ _ Hvn). cbn zeta.
  rewrite (M_bind_Ok _ _ _ _ _ Hve). eexists _, _. split; [reflexivity|done].
Qed.
End accuracy_completes_from.

(** ** A world in which a generated value is 0 *)

Lemma countb_mono_in {A} (f g : A -> bool) (l : list A) :
  (forall x, x ∈ l -> f x = true -> g x = true) ->
  countb f l <= countb g l.
Proof.
  induction l as [|x l IH]; intros Hfg; cbn [countb]; [done|].
  assert (countb f l <= countb g l) as Hle.
  { apply IH. intros y Hy. apply Hfg. by right. }
  destruct (f x) eqn:Hf; [rewrite (Hfg x) by (done || by left)|destruct (g x)];
    lia.
Qed.

Lemma countb_Forall2 {A B} (f : A -> bool) (g : B -> bool) l k :
  Forall2 (fun v x => f v = g x) l k -> countb f l = countb g k.
Proof. induction 1 as [|v x l k Hvx _ IH]; cbn [countb]; [done|]. by rewrite Hvx, IH. Qed.

(** When at most half of the numbers are 0 and none is negative, the
    median is not 0. *)
Lemma median_not_zero_few_zeros (pop : list Q) (a : Q) :
  Forall (fun x => 0 <= x)%Q pop ->
  countb (fun x => Qeq_bool x 0) pop <= length pop / 2 ->
  sorted Qltb pop !! (length pop / 2) = Some a ->
  ~ (a == 0)%Q.
Proof.
  intros Hnonneg Hcount Ha Hz.
  assert (splits_at Qltb pop (length pop / 2) a) as Hsplit.
  { apply (rank_splits Qltb). exists (sorted Qltb pop).
    split_and!; [apply sorted_perm| |done].
    apply (sorted_sorted Qltb Qltb_asym Qltb_negtrans). }
  pose proof (splits_counts Qltb Qltb_asym pop _ a Hsplit) as [_ Hle].
  assert (countb (fun x => negb (Qltb a x)) pop
          <= countb (fun x => Qeq_bool x 0) pop) as Hmono; [|lia].
  apply countb_mono_in. intros x Hx Hxa.
  apply negb_true_iff, le_of_Qltb in Hxa.
  pose proof (proj1 (Forall_forall _ _) Hnonneg x Hx) as Hx0. cbn in Hx0.
  apply Qeq_bool_iff. lra.
Qed.

(** Draws whose state counts them, and that give 0 in the state 0 only. *)
Lemma counter_draws_zero {T} (body : T -> M Z Q) (zero : Q -> bool) l :
  (forall i s x s', body i s = Ok (x, s') ->
     s' = (s + 1)%Z /\ (zero x = true -> s = 0%Z)) ->
  forall s xs s', comprehension body l s = Ok (xs, s') ->
    countb zero xs <= 1 /\ ((0 < s)%Z -> countb zero xs = 0).
Proof.
  intros Hbody. induction l as [|i l IH]; intros s xs s' Hrun;
    cbn [comprehension] in Hrun.
  { injection Hrun as <- <-. cbn. lia. }
  apply M_bind_inv in Hrun as (x & s1 & Hx & Hrun).
  apply M_bind_inv in Hrun as (xs' & s2 & Hxs & Hrun).
  injection Hrun as <- <-.
  apply Hbody in Hx as [-> Hzero]. apply IH in Hxs as [Hle Hpos].
  cbn [countb]. destruct (zero x); lia.
Qed.

Lemma rare_zero_world_contract : library_contract rare_zero_world.
Proof.
  apply stream_world_contract.
  - intros _. split; by vm_compute.
  - intros i. destruct (i =? 0)%Z; by vm_compute.
Qed.

(** A population of exponential numbers holds at most one 0. *)
Lemma rare_zero_world_few_zeros n s pop s1 :
  median_estimate_accuracy.experimental_data rare_zero_world "exponential"
    n s = Ok (pop, s1) ->
  countb (fun x => Qeq_bool x 0) pop <= 1.
Proof.
  intros Hpop.
  destruct (binned_positions rare_zero_world "exponential" n s pop s1)
    as (draws & Hdraws & Hbins); [by right|done|].
  change ((lower "exponential" =? "normal")%string) with false in Hdraws.
  cbv iota in Hdraws.
  rewrite <-(countb_Forall2
               (fun v => Qeq_bool
                           (inject_Z (Qround_half_even (v * 10)) / 10) 0)
               (fun x => Qeq_bool x 0) draws pop).
  - apply (counter_draws_zero _
             (fun v => Qeq_bool
                         (inject_Z (Qround_half_even (v * 10)) / 10) 0))
      in Hdraws as [Hle _]; [done|].
    intros i sa x sb Hx.
    apply M_bind_inv in Hx as (lambd & sc & Hl & Hcall).
    apply lift_inv in Hl as (? & _ & [= _ ->]).
    unfold call in Hcall. cbn in Hcall. injection Hcall as <- <-.
    split; [done|]. destruct (Z.eqb_spec sa 0) as [->|Hne]; [done|].
    intros Hzero. by vm_compute in Hzero.
  - eapply Forall2_impl; [exact Hbins|]. intros val x (k & Hk & Hx).
    cbn in Hk, Hx. injection Hk as <-. unfold Qtruediv in Hx.
    change (Qeq_bool (inject_Z 10) 0) with false in Hx.
    by injection Hx as <-.
Qed.

Lemma rare_zero_world_positive mode n s pop s1 :
  mode = "uniform"%string \/ mode = "normal"%string ->
  median_estimate_accuracy.experimental_data rare_zero_world mode n s
  = Ok (pop, s1) ->
  Forall (fun x => 0 < x)%Q pop.
Proof.
  intros Hmode Hpop.
  apply (experimental_data_elements rare_zero_world _ _ _ _ _ _ Hpop).
  - intros _ sa. reflexivity.
  - intros _ mu sigma sa x [= <-]. reflexivity.
  - intros Hm. by destruct Hmode as [-> | ->]; vm_compute in Hm.
Qed.

Lemma rare_zero_world_medians :
  medians_not_zero rare_zero_world (fun _ => True).
Proof.
  intros mode s pop s1 a Hmode _ Hpop Ha.
  assert (a ∈ pop) as Hin.
  { rewrite <-(sorted_perm Qltb pop). by eapply list_elem_of_lookup_2. }
  assert (Forall (fun x => 0 < x)%Q pop -> ~ (a == 0)%Q) as Hpositive.
  { intros Hall Hz.
    pose proof (proj1 (Forall_forall _ _) Hall a Hin) as Ha0. cbn in Ha0.
    lra. }
  apply elem_of_cons in Hmode as [->|Hmode];
    [|apply elem_of_cons in Hmode as [->|Hmode];
      [|apply elem_of_cons in Hmode as [->|Hmode];
        [|by apply elem_of_nil in Hmode]]].
  - apply Hpositive.
    eapply rare_zero_world_positive; [by left|exact Hpop].
  - apply Hpositive.
    eapply rare_zero_world_positive; [by right|exact Hpop].
  - pose proof (rare_zero_world_few_zeros _ _ _ _ Hpop) as Hfew.
    pose proof (experimental_data_nonneg rare_zero_world
                  rare_zero_world_contract "exponential" _ s pop s1
                  eq_refl Hpop) as Hnonneg.
    pose proof (experimental_data_run rare_zero_world "exponential"
                  16384 s ltac:(lia)) as Hlen.
    change (valid_mode "exponential") with true in Hlen.
    destruct Hlen as (L & s2 & HL & Hlen). rewrite Hpop in HL.
    injection HL as <- <-.
    apply (median_not_zero_few_zeros pop a); [done| |done].
    clear -Hfew Hlen. lia.
Qed.

(** In this world a generated value is 0. *)
Lemma rare_zero_world_draws_zero :
  exists pop s1,
    median_estimate_accuracy.experimental_data rare_zero_world "exponential"
      2 0%Z = Ok (pop, s1) /\
    Exists (fun x => x == 0)%Q pop.
Proof. eexists _, _. split; [vm_compute; reflexivity|]. by left. Qed.

(** The figure that [run_test] draws once its loop has completed. *)
Lemma accuracy_plot_of_tables (w : World Q) (s : state w) (u n e : gmap Z Q)
    (s' : state w) :
  median_estimate_accuracy.run_test w s = Ok ((u, n, e), s') ->
  exists ys1 ys2 ys3,
    median_estimate_accuracy.run_test_and_plot w s
    = Ok ([plt_plot (range3 4 128 4) ys1 "red";
           plt_plot (range3 4 128 4) ys2 "blue";
           plt_plot (range3 4 128 4) ys3 "grey";
           plt_title
             (String.append
                "Uniform (red) vs Normal (blue) vs Exponential (grey) "
                (String "010"%char "Median Estimators"))
             "green";
           plt_xlabel "sample size of median estimate";
           plt_ylabel "score (smaller is better)";
           plt_show], s') /\
    length (range3 4 128 4) = 31 /\
    Forall2
      (fun k y =>
         mean_of_trials
           (median_estimate_accuracy.score_median w "uniform" k) 20 y)
      (range3 4 128 4) ys1 /\
    Forall2
      (fun k y =>
         mean_of_trials
           (median_estimate_accuracy.score_median w "normal" k) 20 y)
      (range3 4 128 4) ys2 /\
    Forall2
      (fun k y =>
         mean_of_trials
           (median_estimate_accuracy.score_median w "exponential" k) 20 y)
      (range3 4 128 4) ys3.
Proof.
  intros Hrun.
  destruct (run_test_tables w s u n e s' Hrun) as (Hu & Hn & He).
  assert (range3 4 128 4 <> []) as Hkeys by done.
  pose proof (table_of_nonempty _ _ _ Hkeys Hu) as Hne1.
  pose proof (table_of_nonempty _ _ _ Hkeys Hn) as Hne2.
  pose proof (table_of_nonempty _ _ _ Hkeys He) as Hne3.
  unfold median_estimate_accuracy.run_test_and_plot.
  rewrite (M_bind_Ok _ _ _ _ _ Hrun).
  unfold median_estimate_accuracy.median_line_plot.
  destruct (columns_of_table u) as [[? _]|(_ & xs1 & ys1 & -> & Hl1)];
    [done|].
  destruct (columns_of_table n) as [[? _]|(_ & xs2 & ys2 & -> & Hl2)];
    [done|].
  destruct (columns_of_table e) as [[? _]|(_ & xs3 & ys3 & -> & Hl3)];
    [done|].
  destruct (line_of_table _ _ _ _ _ sample_sizes_increase Hu Hl1) as [-> Hy1].
  destruct (line_of_table _ _ _ _ _ sample_sizes_increase Hn Hl2) as [-> Hy2].
  destruct (line_of_table _ _ _ _ _ sample_sizes_increase He Hl3) as [-> Hy3].
  exists ys1, ys2, ys3. split_and!; done.
Qed.

(** X24: under the contract of [random], the accuracy script runs to its
    end from a state of [I], when [I] holds again after every call of
    [score_median] that the script can make and no population generated
    from a state of [I] has the median 0: it draws three lines over the 31
    sample sizes of [range(4, 128, 4)], whose values are the means of 20
    scores for the uniform, the normal and the exponential numbers, and
    shows the figure. *)
Theorem accuracy_script_completes (w : World Q) (I : state w -> Prop)
    (s : state w) :
  library_contract w -> closed_under_scoring w I -> medians_not_zero w I ->
  I s ->
  exists ys1 ys2 ys3 s',
    median_estimate_accuracy.run_test_and_plot w s
    = Ok ([plt_plot (range3 4 128 4) ys1 "red";
           plt_plot (range3 4 128 4) ys2 "blue";
           plt_plot (range3 4 128 4) ys3 "grey";
           plt_title
             (String.append
                "Uniform (red) vs Normal (blue) vs Exponential (grey) "
                (String "010"%char "Median Estimators"))
             "green";
           plt_xlabel "sample size of median estimate";
           plt_ylabel "score (smaller is better)";
           plt_show], s') /\
    length (range3 4 128 4) = 31 /\
    Forall2
      (fun k y =>
         mean_of_trials
           (median_estimate_accuracy.score_median w "uniform" k) 20 y)
      (range3 4 128 4) ys1 /\
    Forall2
      (fun k y =>
         mean_of_trials
           (median_estimate_accuracy.score_median w "normal" k) 20 y)
      (range3 4 128 4) ys2 /\
    Forall2
      (fun k y =>
         mean_of_trials
           (median_estimate_accuracy.score_median w "exponential" k) 20 y)
      (range3 4 128 4) ys3.
Proof.
  intros contract Hclosed Hmedians HI.
  destruct (run_test_total_from w contract I Hclosed Hmedians s HI)
    as ([[u n] e] & s' & Hrun).
  destruct (accuracy_plot_of_tables w s u n e s' Hrun)
    as (ys1 & ys2 & ys3 & Hplot).
  by exists ys1, ys2, ys3, s'.
Qed.

Lemma accuracy_script_completes_witness :
  exists ys1 ys2 ys3 s',
    median_estimate_accuracy.run_test_and_plot rare_zero_world 0%Z
    = Ok ([plt_plot (range3 4 128 4) ys1 "red";
           plt_plot (range3 4 128 4) ys2 "blue";
           plt_plot (range3 4 128 4) ys3 "grey";
           plt_title
             (String.append
                "Uniform (red) vs Normal (blue) vs Exponential (grey) "
                (String "010"%char "Median Estimators"))
             "green";
           plt_xlabel "sample size of median estimate";
           plt_ylabel "score (smaller is better)";
           plt_show], s').
Proof.
  destruct (accuracy_script_completes rare_zero_world (fun _ => True) 0%Z
              rare_zero_world_contract)
    as (ys1 & ys2 & ys3 & s' & Hrun & _);
    [done|apply rare_zero_world_medians|done|].
  by exists ys1, ys2, ys3, s'.
Defined.

(** ** What can go wrong in the accuracy script *)

Lemma comprehension_or_raise {S T U} (e : exn) (body : T -> M S U) l :
  (forall i s, i ∈ l ->
     (exists x s', body i s = Ok (x, s')) \/ body i s = Raise e) ->
  forall s,
    (exists xs s', comprehension body l s = Ok (xs, s'))
    \/ comprehension body l s = Raise e.
Proof.
  induction l as [|i l IH]; intros Hbody s; cbn [comprehension].
  { left. by exists [], s. }
  rewrite M_bind_run.
  destruct (Hbody i s) as [(x & s1 & ->)| ->]; [by left| |by right].
  rewrite M_bind_run.
  destruct IH with (s := s1) as [(xs & s2 & ->)| ->]; [| |by right].
  { intros j s0 Hj. apply Hbody. by right. }
  left. by exists (x :: xs), s2.
Qed.

Lemma for_loop_or_raise {S T U} (e : exn) (body : U -> T -> M S U) l :
  (forall acc i s, i ∈ l ->
     (exists acc' s', body acc i s = Ok (acc', s')) \/ body acc i s = Raise e) ->
  forall acc s,
    (exists acc' s', for_loop body acc l s = Ok (acc', s'))
    \/ for_loop body acc l s = Raise e.
Proof.
  induction l as [|i l IH]; intros Hbody acc s; cbn [for_loop].
  { left. by exists acc, s. }
  rewrite M_bind_run.
  destruct (Hbody acc i s) as [(acc1 & s1 & ->)| ->]; [by left| |by right].
  apply IH. intros acc0 j s0 Hj. apply Hbody. by right.
Qed.

Section accuracy_outcome.
Context (w : World Q) (contract : library_contract w).

Import median_estimate_accuracy.

Lemma average_score_or_raise mode k s :
  valid_mode mode = true -> (1 <= k <= 16384)%Z ->
  (exists v s', average_score w mode k s = Ok (v, s'))
  \/ average_score w mode k s = Raise ZeroDivisionError.
Proof.
  intros Hmode Hk. unfold average_score. rewrite M_bind_run.
  destruct (comprehension_or_raise ZeroDivisionError
              (fun _ : Z => score_median w mode k) (range 20)) with (s := s)
    as [(scores & s' & ->)| ->]; [|left; eauto|by right].
  intros _ s0 _.
  destruct (score_median_run w contract mode k s0 Hmode Hk)
    as (pop & s1 & smp & s2 & a & e & _ & _ & _ & _ & _ & _ & _ & ->).
  destruct (Qeq_bool a 0); [by right|left; eauto].
Qed.

Lemma run_test_or_raise s :
  (exists tables s', run_test w s = Ok (tables, s'))
  \/ run_test w s = Raise ZeroDivisionError.
Proof.
  rewrite <-run_test_unfold.
  apply (for_loop_or_raise (U := gmap Z Q * gmap Z Q * gmap Z Q)).
  intros [[u n] e] i s0 Hi%range3_4_128_4_bounds.
  rewrite M_bind_run.
  destruct (average_score_or_raise "uniform" i s0 eq_refl Hi)
    as [(vu & sa & ->)| ->]; [|by right].
  cbn zeta. rewrite M_bind_run.
  destruct (average_score_or_raise "normal" i sa eq_refl Hi)
    as [(vn & sb & ->)| ->]; [|by right].
  cbn zeta. rewrite M_bind_run.
  destruct (average_score_or_raise "exponential" i sb eq_refl Hi)
    as [(ve & sc & ->)| ->]; [|by right].
  left. eexists _, _. reflexivity.
Qed.
End accuracy_outcome.

(** X25: under the contract of [random], the accuracy script does one of
    two things: it runs to its end and shows the figure with its three
    lines over the sample sizes of [range(4, 128, 4)], or it raises
    [ZeroDivisionError] (the median of a population was 0).  It raises no
    other exception. *)
Theorem accuracy_script_outcome (w : World Q) (s : state w) :
  library_contract w ->
  (exists ys1 ys2 ys3 s',
     median_estimate_accuracy.run_test_and_plot w s
     = Ok ([plt_plot (range3 4 128 4) ys1 "red";
            plt_plot (range3 4 128 4) ys2 "blue";
            plt_plot (range3 4 128 4) ys3 "grey";
            plt_title
              (String.append
                 "Uniform (red) vs Normal (blue) vs Exponential (grey) "
                 (String "010"%char "Median Estimators"))
              "green";
            plt_xlabel "sample size of median estimate";
            plt_ylabel "score (smaller is better)";
            plt_show], s'))
  \/ median_estimate_accuracy.run_test_and_plot w s
     = Raise ZeroDivisionError.
Proof.
  intros contract.
  destruct (run_test_or_raise w contract s)
    as [([[u n] e] & s' & Hrun)|Hrun].
  - left.
    destruct (accuracy_plot_of_tables w s u n e s' Hrun)
      as (ys1 & ys2 & ys3 & Hplot & _).
    by exists ys1, ys2, ys3, s'.
  - right. unfold median_estimate_accuracy.run_test_and_plot.
    by rewrite M_bind_run, Hrun.
Qed.

Lemma accuracy_script_outcome_witness :
  (exists ys1 ys2 ys3 s',
     median_estimate_accuracy.run_test_and_plot zero_world 0%Z
     = Ok ([plt_plot (range3 4 128 4) ys1 "red";
            plt_plot (range3 4 128 4) ys2 "blue";
            plt_plot (range3 4 128 4) ys3 "grey";
            plt_title
              (String.append
                 "Uniform (red) vs Normal (blue) vs Exponential (grey) "
                 (String "010"%char "Median Estimators"))
              "green";
            plt_xlabel "sample size of median estimate";
            plt_ylabel "score (smaller is better)";
            plt_show], s'))
  \/ median_estimate_accuracy.run_test_and_plot zero_world 0%Z
     = Raise ZeroDivisionError.
Proof.
  apply accuracy_script_outcome. apply stream_world_contract.
  - intros _. split; by vm_compute.
  - intros _. by vm_compute.
Defined.
